(** * The users store of the editor UI (stores/users.store.ts)

    A shallow embedding of the Pinia store [useUsersStore]: its state, the
    helper predicates on user records, the getters that read the store
    only and every action, followed by the properties of the merge
    operation [addUsers], of removal and of the session actions, and by
    what all actions keep of the store. *)

From stdpp Require Import gmap strings pretty.

Local Open Scope string_scope.

(** ** JavaScript values

    User records are plain JavaScript objects; the store copies them with
    object spread and inspects a handful of their properties.  An object is
    a finite map from property names to values.  Numbers are the
    integer-valued ones, which JavaScript prints in plain decimal. *)

#[warnings="-register-all"]
Inductive val :=
| VUndef
| VNull
| VBool (b : bool)
| VNum (n : Z)
| VStr (s : string)
| VObj (o : gmap string val).

Abbreviation obj := (gmap string val).

(** [Boolean(v)], the test performed by [if], [!], [&&], [||] and [?:]. *)
Definition truthy (v : val) : bool :=
  match v with
  | VUndef | VNull => false
  | VBool b => b
  | VNum n => negb (n =? 0)%Z
  | VStr s => negb (String.eqb s "")
  | VObj _ => true
  end.

(** [String(v)], used by template literals, by computed property keys and
    by the [Error] constructor.  It is the code's on the values that the
    declared types give an id or a name, which are strings; a number is
    printed in plain decimal, as the code prints those below 10^21, and an
    object as a plain object without a [toString] of its own is. *)
Definition to_string (v : val) : string :=
  match v with
  | VUndef => "undefined"
  | VNull => "null"
  | VBool true => "true"
  | VBool false => "false"
  | VNum n => pretty n
  | VStr s => s
  | VObj _ => "[object Object]"
  end.

(** [o.k] on an object: the value of the property, [undefined] when the
    object has no such property. *)
Definition get (o : obj) (k : string) : val := default VUndef (o !! k).

(** [v?.name]: [undefined] on [undefined] and [null]; the property on an
    object; primitives have no property [name]. *)
Definition name_of (v : val) : val :=
  match v with
  | VObj o => get o "name"
  | _ => VUndef
  end.

(** [v === s] for a string constant [s]. *)
Definition strict_eq_str (v : val) (s : string) : bool :=
  match v with
  | VStr t => bool_decide (t = s)
  | _ => false
  end.

(** [a || b] *)
Definition or_else (a b : val) : val := if truthy a then a else b.

(** Modelled from the spec: the constant [ROLE.Owner] imported from
    [@/utils], which is not part of the sources at hand; the specification
    calls it the "Owner" role constant and writes its value as "owner". *)
Definition ROLE_Owner : string := "owner".

(** ** Predicates on user records (lines 42-48) *)

Definition isDefaultUser (user : option obj) : bool :=
  match user with
  | None => false
  | Some u =>
      truthy (get u "isPending") && truthy (get u "globalRole")
      && strict_eq_str (name_of (get u "globalRole")) ROLE_Owner
  end.

Definition isPendingUser (user : option obj) : bool :=
  match user with
  | None => false
  | Some u => truthy (get u "isPending")
  end.

Definition isInstanceOwner (user : option obj) : bool :=
  match user with
  | None => false
  | Some u => strict_eq_str (name_of (get u "globalRole")) ROLE_Owner
  end.

(** ** The state of the store (lines 51-56) *)

Record IUsersState := mkState {
  initialized : bool;
  currentUserId : val;
  users : gmap string obj;
  currentUserCloudInfo : val;
}.

Definition initial_state : IUsersState :=
  {| initialized := false; currentUserId := VNull; users := ∅;
     currentUserCloudInfo := VNull |}.

Definition set_initialized (b : bool) (s : IUsersState) : IUsersState :=
  {| initialized := b; currentUserId := currentUserId s; users := users s;
     currentUserCloudInfo := currentUserCloudInfo s |}.

Definition set_currentUserId (v : val) (s : IUsersState) : IUsersState :=
  {| initialized := initialized s; currentUserId := v; users := users s;
     currentUserCloudInfo := currentUserCloudInfo s |}.

Definition set_users (us : gmap string obj) (s : IUsersState) : IUsersState :=
  {| initialized := initialized s; currentUserId := currentUserId s; users := us;
     currentUserCloudInfo := currentUserCloudInfo s |}.

Definition set_currentUserCloudInfo (v : val) (s : IUsersState) : IUsersState :=
  {| initialized := initialized s; currentUserId := currentUserId s; users := users s;
     currentUserCloudInfo := v |}.

(** The getter [currentUser] (line 64): the record keyed by [currentUserId]
    when that id is truthy; [None] stands for both [null] and [undefined].
    The record is looked up among the mapping's own keys: for an id that
    names a member of [Object.prototype] and keys no record, line 65 gives
    that member instead. *)
Definition currentUser (s : IUsersState) : option obj :=
  if truthy (currentUserId s) then users s !! to_string (currentUserId s) else None.

(** ** The synchronous actions (lines 133-172) *)

(** The four properties computed at merge time. *)
Definition derived_fields : list string :=
  ["fullName"; "isDefaultUser"; "isPendingUser"; "isOwner"].

(** [{...prevUser, ...userResponse}]: the properties of the second operand
    win; stdpp's union prefers its left operand. *)
Definition spread2 (prevUser userResponse : obj) : obj := userResponse ∪ prevUser.

(** The value given to [fullName] (lines 142-144). *)
Definition fullName_of (userResponse updatedUser : obj) : val :=
  if truthy (get userResponse "firstName")
  then VStr (to_string (get updatedUser "firstName") ++ " "
             ++ to_string (or_else (get updatedUser "lastName") (VStr "")))
  else VUndef.

(** The record built for one response (lines 135-148). *)
Definition merge_user (prevUser userResponse : obj) : obj :=
  let updatedUser := spread2 prevUser userResponse in
  <["isOwner" := VBool (strict_eq_str (name_of (get updatedUser "globalRole")) ROLE_Owner)]>
  (<["isPendingUser" := VBool (isPendingUser (Some updatedUser))]>
  (<["isDefaultUser" := VBool (isDefaultUser (Some updatedUser))]>
  (<["fullName" := fullName_of userResponse updatedUser]> updatedUser))).

(** One turn of the [forEach] loop (lines 134-154), on the users mapping. *)
Definition add_one (us : gmap string obj) (userResponse : obj) : gmap string obj :=
  let prevUser := default ∅ (us !! to_string (get userResponse "id")) in
  let user := merge_user prevUser userResponse in
  <[to_string (get user "id") := user]> us.

(** Lines 133-155. *)
Definition addUsers (responses : list obj) (s : IUsersState) : IUsersState :=
  set_users (foldl add_one (users s) responses) s.

(** Lines 156-159: the rest pattern copies every key but [userId]. *)
Definition deleteUserById (userId : string) (s : IUsersState) : IUsersState :=
  set_users (delete userId (users s)) s.

(** Lines 160-172, on the current user as [currentUser] above finds it. *)
Definition setPersonalizationAnswers (answers : val) (s : IUsersState) : IUsersState :=
  match currentUser s with
  | None => s
  | Some cu =>
      set_users (<[to_string (get cu "id") := <["personalizationAnswers" := answers]> cu]> (users s)) s
  end.

(** ** Asynchronous actions

    An action runs against the store and the collaborating stores; the
    latter are represented by the list of calls made to them, latest
    first.  The API client is represented by what each request settles
    with, given to the action as a [response].  An action is run on its
    own: no other action is interleaved at its [await]. *)

(** The one modal key the store uses, a constant of [@/constants]. *)
Inductive modal_key := PERSONALIZATION_MODAL_KEY.

Inductive call :=
| PostHogInit (featureFlags : val)
| PostHogReset
| CloudPlanReset
| ClearBannerStack
| StopShowingSetupPage
| OpenModal (key : modal_key).

Record World := mkWorld {
  store : IUsersState;
  calls : list call;
}.

(** What can be thrown: the rejection of an API request (carrying the
    rendering of its reason by [String]), an [Error] built by the store,
    and the [TypeError] of a property access on [undefined]. *)
Inductive exn :=
| ApiError (reason : string)
| Error (message : string)
| TypeError.

Inductive outcome (A : Type) :=
| Return (a : A)
| Throw (e : exn).
Arguments Return {A} a.
Arguments Throw {A} e.

Inductive response (A : Type) :=
| Resolved (a : A)
| Rejected (reason : string).
Arguments Resolved {A} a.
Arguments Rejected {A} reason.

Definition M (A : Type) : Type := World -> outcome A * World.

Definition ret {A} (a : A) : M A := fun w => (Return a, w).

Definition bind {A B} (m : M A) (k : A -> M B) : M B :=
  fun w =>
    match m w with
    | (Return a, w') => k a w'
    | (Throw e, w') => (Throw e, w')
    end.

Definition throw {A} (e : exn) : M A := fun w => (Throw e, w).

(** [try { m } catch (e) { h e }]: what [m] wrote before throwing stays. *)
Definition try_catch {A} (m : M A) (h : exn -> M A) : M A :=
  fun w =>
    match m w with
    | (Return a, w') => (Return a, w')
    | (Throw e, w') => h e w'
    end.

Definition await {A} (r : response A) : M A :=
  match r with
  | Resolved a => ret a
  | Rejected reason => throw (ApiError reason)
  end.

Definition read : M IUsersState := fun w => (Return (store w), w).

(** A write to the store, and a call to a collaborator. *)
Definition on_store (f : IUsersState -> IUsersState) (w : World) : World :=
  {| store := f (store w); calls := calls w |}.

Definition called (c : call) (w : World) : World :=
  {| store := store w; calls := c :: calls w |}.

Definition modify (f : IUsersState -> IUsersState) : M unit :=
  fun w => (Return tt, on_store f w).

Definition invoke (c : call) : M unit :=
  fun w => (Return tt, called c w).

Notation "x <- m ;; k" := (bind m (fun x => k))
  (at level 100, m at next level, right associativity).
Notation "m ;; k" := (bind m (fun _ => k))
  (at level 100, right associativity).

(** [String(e)] for a caught exception; the text an engine gives its own
    [TypeError] is left out. *)
Definition exn_to_string (e : exn) : string :=
  match e with
  | ApiError reason => reason
  | Error message => if String.eqb message "" then "Error" else "Error: " ++ message
  | TypeError => "TypeError"
  end.

(** Modelled from the spec: the interface [IInviteResponse] of
    [@/Interface], which is not part of the sources at hand.  A per-invite
    result carries the invited user's stub, holding the [emailSent] flag,
    and the error field reported by the server, which may be missing. *)
Record IInviteResponse := mkInvite {
  user : obj;
  error : option string;
}.

(** The statements that the four login actions run once their request has
    given a user, one after the other. *)
Inductive stmt :=
| AddUsersStmt (responses : list obj)
| AssignCurrentUserId (v : val)
| CallStmt (c : call).

Definition exec_stmt (st : stmt) : M unit :=
  match st with
  | AddUsersStmt responses => modify (addUsers responses)
  | AssignCurrentUserId v => modify (set_currentUserId v)
  | CallStmt c => invoke c
  end.

Fixpoint perform (body : list stmt) : M unit :=
  match body with
  | [] => ret tt
  | st :: rest => exec_stmt st ;; perform rest
  end.

(** Each statement of a body with the world in which it runs. *)
Fixpoint before_each (body : list stmt) (w : World) : list (stmt * World) :=
  match body with
  | [] => []
  | st :: rest => (st, w) :: before_each rest (exec_stmt st w).2
  end.

(** Lines 180-183. *)
Definition loginWithCookie_body (u : obj) : list stmt :=
  [ AddUsersStmt [u];
    AssignCurrentUserId (get u "id");
    CallStmt (PostHogInit (get u "featureFlags")) ].

(** Lines 173-184.  [r] is what [loginCurrentUser] settles with: a user
    or [null]. *)
Definition loginWithCookie (r : response (option obj)) : M unit :=
  u <- await r ;;
  match u with
  | None => ret tt
  | Some u => perform (loginWithCookie_body u)
  end.

(** Lines 123-132. *)
Definition initialize (r : response (option obj)) : M unit :=
  s <- read ;;
  if initialized s then ret tt
  else try_catch (loginWithCookie r ;; modify (set_initialized true))
                 (fun _ => ret tt).

(** Lines 197-200. *)
Definition loginWithCreds_body (u : obj) : list stmt :=
  [ AddUsersStmt [u];
    AssignCurrentUserId (get u "id");
    CallStmt (PostHogInit (get u "featureFlags")) ].

(** Lines 185-201; the credentials go to the API client only. *)
Definition loginWithCreds (r : response (option obj)) : M unit :=
  u <- await r ;;
  match u with
  | None => ret tt
  | Some u => perform (loginWithCreds_body u)
  end.

(** Lines 202-210. *)
Definition logout (r : response unit) : M unit :=
  await r ;;
  modify (set_currentUserId VNull) ;;
  invoke CloudPlanReset ;;
  invoke PostHogReset ;;
  modify (set_currentUserCloudInfo VNull) ;;
  invoke ClearBannerStack.

(** Lines 221-224. *)
Definition createOwner_body (u : obj) : list stmt :=
  [ AddUsersStmt [u];
    AssignCurrentUserId (get u "id");
    CallStmt StopShowingSetupPage;
    CallStmt (PostHogInit (get u "featureFlags")) ].

(** Lines 211-226. *)
Definition createOwner (r : response (option obj)) : M unit :=
  u <- await r ;;
  match u with
  | Some u => perform (createOwner_body u)
  | None => ret tt
  end.

Definition validateSignupToken (r : response val) : M val := await r.

(** Lines 244-246. *)
Definition acceptInvitation_body (u : obj) : list stmt :=
  [ AddUsersStmt [u];
    AssignCurrentUserId (get u "id");
    CallStmt (PostHogInit (get u "featureFlags")) ].

(** Lines 234-248. *)
Definition acceptInvitation (r : response (option obj)) : M unit :=
  u <- await r ;;
  match u with
  | Some u => perform (acceptInvitation_body u)
  | None => ret tt
  end.

Definition sendForgotPasswordEmail (r : response unit) : M unit := await r.

Definition validatePasswordToken (r : response unit) : M unit := await r.

Definition changePassword (r : response unit) : M unit := await r.

Definition updateUser (r : response obj) : M unit :=
  u <- await r ;;
  modify (addUsers [u]).

(** [o.settings = v] on the record stored under [key]: the object held by
    the mapping is changed in place. *)
Definition assign_in_place (key field : string) (v : val) (s : IUsersState) : IUsersState :=
  set_users (alter (insert field v) key (users s)) s.

(** Lines 275-285: the settings are assigned on the current user's record,
    which is then merged again. *)
Definition updateUserSettings (r : response val) : M unit :=
  updatedSettings <- await r ;;
  s <- read ;;
  match currentUser s with
  | Some _ =>
      modify (assign_in_place (to_string (currentUserId s)) "settings" updatedSettings) ;;
      s' <- read ;;
      match currentUser s' with
      | Some cu => modify (addUsers [cu])
      | None => throw TypeError
      end
  | None => ret tt
  end.

(** Lines 286-298: assigning on a record that is not there is a
    [TypeError].  The record is looked up among the mapping's own keys;
    an id that names a member of [Object.prototype] and keys no record
    finds that member in the code. *)
Definition updateOtherUserSettings (userId : string) (r : response val) : M unit :=
  updatedSettings <- await r ;;
  s <- read ;;
  match users s !! userId with
  | None => throw TypeError
  | Some _ =>
      modify (assign_in_place userId "settings" updatedSettings) ;;
      s' <- read ;;
      match users s' !! userId with
      | Some u => modify (addUsers [u])
      | None => throw TypeError
      end
  end.

Definition updateCurrentUserPassword (r : response unit) : M unit := await r.

Definition deleteUser (id : string) (r : response unit) : M unit :=
  await r ;;
  modify (deleteUserById id).

Definition fetchUsers (r : response (list obj)) : M unit :=
  us <- await r ;;
  modify (addUsers us).

(** [{ isPending: true, ...user }] *)
Definition pending_stub (i : IInviteResponse) : obj :=
  spread2 {[ "isPending" := VBool true ]} (user i).

(** Lines 322-327. *)
Definition inviteUsers (r : response (list IInviteResponse)) : M (list IInviteResponse) :=
  us <- await r ;;
  modify (addUsers (pending_stub <$> us)) ;;
  ret us.

(** Lines 328-336: [invitationResponse[0]] is [undefined] on an empty array,
    and reading its [user] is then a [TypeError]; [Error(undefined)] has
    the empty message. *)
Definition reinviteUser (r : response (list IInviteResponse)) : M unit :=
  invitationResponse <- await r ;;
  match invitationResponse with
  | [] => throw TypeError
  | first :: _ =>
      if negb (truthy (get (user first) "emailSent"))
      then throw (Error (default "" (error first)))
      else ret tt
  end.

Definition getUserPasswordResetLink (r : response val) : M val := await r.

Definition submitPersonalizationSurvey (results : val) (r : response unit) : M unit :=
  await r ;;
  modify (setPersonalizationAnswers results).

Definition showPersonalizationSurvey (surveyEnabled : bool) : M unit :=
  s <- read ;;
  match currentUser s with
  | Some cu =>
      if surveyEnabled && negb (truthy (get cu "personalizationAnswers"))
      then invoke (OpenModal PERSONALIZATION_MODAL_KEY)
      else ret tt
  | None => ret tt
  end.

Definition getMfaQR (r : response val) : M val := await r.

Definition verifyMfaToken (r : response unit) : M unit := await r.

Definition enableMfa (r : response unit) : M unit :=
  await r ;;
  s <- read ;;
  match currentUser s with
  | Some _ => modify (assign_in_place (to_string (currentUserId s)) "mfaEnabled" (VBool true))
  | None => ret tt
  end.

Definition disabledMfa (r : response unit) : M unit :=
  await r ;;
  s <- read ;;
  match currentUser s with
  | Some _ => modify (assign_in_place (to_string (currentUserId s)) "mfaEnabled" (VBool false))
  | None => ret tt
  end.

(** Lines 381-389. *)
Definition fetchUserCloudAccount (r : response val) : M unit :=
  try_catch (cloudUser <- await r ;; modify (set_currentUserCloudInfo cloudUser))
            (fun e => throw (Error (exn_to_string e))).

Definition confirmEmail (r : response unit) : M unit := await r.

(** ** The actions as one type

    Every action of the store with its arguments and, for the asynchronous
    ones, what its API request settles with. *)

Inductive action :=
| Initialize (r : response (option obj))
| AddUsers (us : list obj)
| DeleteUserById (userId : string)
| SetPersonalizationAnswers (answers : val)
| LoginWithCookie (r : response (option obj))
| LoginWithCreds (r : response (option obj))
| Logout (r : response unit)
| CreateOwner (r : response (option obj))
| ValidateSignupToken (r : response val)
| AcceptInvitation (r : response (option obj))
| SendForgotPasswordEmail (r : response unit)
| ValidatePasswordToken (r : response unit)
| ChangePassword (r : response unit)
| UpdateUser (r : response obj)
| UpdateUserSettings (r : response val)
| UpdateOtherUserSettings (userId : string) (r : response val)
| UpdateCurrentUserPassword (r : response unit)
| DeleteUser (id : string) (r : response unit)
| FetchUsers (r : response (list obj))
| InviteUsers (r : response (list IInviteResponse))
| ReinviteUser (r : response (list IInviteResponse))
| GetUserPasswordResetLink (r : response val)
| SubmitPersonalizationSurvey (results : val) (r : response unit)
| ShowPersonalizationSurvey (surveyEnabled : bool)
| GetMfaQR (r : response val)
| VerifyMfaToken (r : response unit)
| EnableMfa (r : response unit)
| DisabledMfa (r : response unit)
| FetchUserCloudAccount (r : response val)
| ConfirmEmail (r : response unit).

(** Running an action, keeping of its result only whether it threw. *)
Definition run {A} (m : M A) (w : World) : option exn * World :=
  match m w with
  | (Return _, w') => (None, w')
  | (Throw e, w') => (Some e, w')
  end.

Definition exec (a : action) : World -> option exn * World :=
  match a with
  | Initialize r => run (initialize r)
  | AddUsers us => run (modify (addUsers us))
  | DeleteUserById userId => run (modify (deleteUserById userId))
  | SetPersonalizationAnswers answers => run (modify (setPersonalizationAnswers answers))
  | LoginWithCookie r => run (loginWithCookie r)
  | LoginWithCreds r => run (loginWithCreds r)
  | Logout r => run (logout r)
  | CreateOwner r => run (createOwner r)
  | ValidateSignupToken r => run (validateSignupToken r)
  | AcceptInvitation r => run (acceptInvitation r)
  | SendForgotPasswordEmail r => run (sendForgotPasswordEmail r)
  | ValidatePasswordToken r => run (validatePasswordToken r)
  | ChangePassword r => run (changePassword r)
  | UpdateUser r => run (updateUser r)
  | UpdateUserSettings r => run (updateUserSettings r)
  | UpdateOtherUserSettings userId r => run (updateOtherUserSettings userId r)
  | UpdateCurrentUserPassword r => run (updateCurrentUserPassword r)
  | DeleteUser id r => run (deleteUser id r)
  | FetchUsers r => run (fetchUsers r)
  | InviteUsers r => run (inviteUsers r)
  | ReinviteUser r => run (reinviteUser r)
  | GetUserPasswordResetLink r => run (getUserPasswordResetLink r)
  | SubmitPersonalizationSurvey results r => run (submitPersonalizationSurvey results r)
  | ShowPersonalizationSurvey surveyEnabled => run (showPersonalizationSurvey surveyEnabled)
  | GetMfaQR r => run (getMfaQR r)
  | VerifyMfaToken r => run (verifyMfaToken r)
  | EnableMfa r => run (enableMfa r)
  | DisabledMfa r => run (disabledMfa r)
  | FetchUserCloudAccount r => run (fetchUserCloudAccount r)
  | ConfirmEmail r => run (confirmEmail r)
  end.

(** ** The record a merge produces *)

(** The record found under the response's id, [{}] when there is none
    (line 135). *)
Definition prev_of (s : IUsersState) (userResponse : obj) : obj :=
  default ∅ (users s !! to_string (get userResponse "id")).

(** The record that [addUsers [userResponse]] writes into the mapping. *)
Definition merged (s : IUsersState) (userResponse : obj) : obj :=
  merge_user (prev_of s userResponse) userResponse.

(** ** The words of the specification for the derived booleans

    What the specification calls a pending record, a record with a role
    and a role named as the Owner constant, said on the properties of the
    record and not through the functions of the embedding. *)

Inductive Truthy : val → Prop :=
| Truthy_true : Truthy (VBool true)
| Truthy_number (n : Z) : n ≠ 0%Z → Truthy (VNum n)
| Truthy_string (t : string) : t ≠ "" → Truthy (VStr t)
| Truthy_object (o : obj) : Truthy (VObj o).

Definition pending (r : obj) : Prop :=
  ∃ v, r !! "isPending" = Some v ∧ Truthy v.

Definition has_role (r : obj) : Prop :=
  ∃ v, r !! "globalRole" = Some v ∧ Truthy v.

Definition role_named_owner (r : obj) : Prop :=
  ∃ role, r !! "globalRole" = Some (VObj role) ∧ role !! "name" = Some (VStr ROLE_Owner).

(** ** The assignments of [currentUserId] in a run of statements *)

(** In a run, every assignment of [currentUserId] is made in a world whose
    users mapping has the assigned id among its keys. *)
Definition assigned_in_users (trace : list (stmt * World)) : Prop :=
  Forall (λ step,
            match step.1 with
            | AssignCurrentUserId v => to_string v ∈ dom (users (store step.2))
            | _ => True
            end) trace.

(** ** Keys that name a member of [Object.prototype]

    The users mapping is an ordinary object, so [this.users[k]] finds, for
    a key that the mapping does not hold itself, the member that
    [Object.prototype] has under that name, if it has one.  The embedding
    reads the mapping's own keys; it follows the code wherever the key
    looked up is held by the mapping or names no such member. *)
Definition object_prototype_keys : list string :=
  [ "constructor"; "__defineGetter__"; "__defineSetter__"; "hasOwnProperty";
    "__lookupGetter__"; "__lookupSetter__"; "isPrototypeOf"; "propertyIsEnumerable";
    "toString"; "valueOf"; "__proto__"; "toLocaleString" ].

Definition plain_key (k : string) : bool := bool_decide (k ∉ object_prototype_keys).

(** ** Sample data *)

(** A stored record with a name, as a first merge into the empty store
    leaves it, and two later responses for the same id. *)
Definition named_pending : obj :=
  {[ "id" := VStr "1"; "firstName" := VStr "A"; "lastName" := VStr "B";
     "isPending" := VBool true ]}.

Definition stored_named : IUsersState := addUsers [named_pending] initial_state.

Definition activation : obj := {[ "id" := VStr "1"; "isPending" := VBool false ]}.

Definition settings_only : obj :=
  {[ "id" := VStr "1"; "settings" := VObj {[ "userActivated" := VBool true ]} ]}.

(** The specification's pending owner. *)
Definition pending_owner : obj :=
  {[ "id" := VStr "1"; "firstName" := VStr "A"; "isPending" := VBool true;
     "globalRole" := VObj {[ "name" := VStr "owner" ]} ]}.

(** A pending user without a role. *)
Definition pending_no_role : obj := {[ "id" := VStr "1"; "isPending" := VBool true ]}.

(** An invitation whose email bounced. *)
Definition bounced : IInviteResponse :=
  {| user := {[ "id" := VStr "7"; "email" := VStr "a@x.com"; "emailSent" := VBool false ]};
     error := Some "bounced" |}.

(** A world whose store is initialized. *)
Definition ready : World := mkWorld (set_initialized true stored_named) [].

(** ** Preservation of the initialization flag *)

(** A computation keeps [initialized]: run from a store where the flag is
    set, it ends in a store where the flag is set. *)
Definition keeps_initialized {A} (m : M A) : Prop :=
  ∀ w, initialized (store w) = true → initialized (store (m w).2) = true.

(** ** The getters that read the store only (lines 57-81)

    [allUsers] depends on the order in which an object lists its keys and
    the permission getters on functions of other modules; they are left
    out. *)

Module Getters.

(** [v?.userActivated] *)
Definition userActivated_of (v : val) : val :=
  match v with
  | VObj o => get o "userActivated"
  | _ => VUndef
  end.

(** [a ?? b] *)
Definition nullish_else (a b : val) : val :=
  match a with
  | VUndef | VNull => b
  | _ => a
  end.

(** The value of [this.currentUser?.k]. *)
Definition currentUser_field (s : IUsersState) (k : string) : val :=
  match currentUser s with
  | Some cu => get cu k
  | None => VUndef
  end.

Definition userActivated (s : IUsersState) : bool :=
  truthy (userActivated_of (currentUser_field s "settings")).

Definition isDefaultUser (s : IUsersState) : bool := isDefaultUser (currentUser s).

Definition isInstanceOwner (s : IUsersState) : bool := isInstanceOwner (currentUser s).

Definition mfaEnabled (s : IUsersState) : val :=
  nullish_else (currentUser_field s "mfaEnabled") (VBool false).

(** Line 77, on the mapping's own keys. *)
Definition getUserById (s : IUsersState) (userId : string) : option obj :=
  users s !! userId.

Definition globalRoleName (s : IUsersState) : val :=
  nullish_else (name_of (currentUser_field s "globalRole")) (VStr "default").

End Getters.

(** ** Runs of actions and what they keep *)

(** The world after a sequence of actions, whatever each of them threw. *)
Definition run_all (actions : list action) (w : World) : World :=
  foldl (fun w a => (exec a w).2) w actions.

(** The world in which the application starts. *)
Definition initial_world : World := mkWorld initial_state [].

(** The world after a cookie login that returned the named pending user. *)
Definition logged_in : World :=
  (loginWithCookie (Resolved (Some named_pending)) initial_world).2.

(** An invitation that was sent. *)
Definition invited : IInviteResponse :=
  {| user := {[ "id" := VStr "9"; "email" := VStr "b@x.com"; "emailSent" := VBool true ]};
     error := None |}.

(** The actions that assign [currentUserId], and those that assign
    [currentUserCloudInfo]. *)
Definition assigns_currentUserId (a : action) : bool :=
  match a with
  | Initialize _ | LoginWithCookie _ | LoginWithCreds _ | Logout _ | CreateOwner _
  | AcceptInvitation _ => true
  | _ => false
  end.

Definition assigns_currentUserCloudInfo (a : action) : bool :=
  match a with
  | Logout _ | FetchUserCloudAccount _ => true
  | _ => false
  end.

(** A request of a login action whose user, if it gives one, has an id
    that names no member of [Object.prototype]. *)
Definition plain_response (r : response (option obj)) : bool :=
  match r with
  | Resolved (Some u) => plain_key (to_string (get u "id"))
  | _ => true
  end.

(** An action that makes no id naming such a member the current one and
    looks no such id up. *)
Definition plain_action (a : action) : bool :=
  match a with
  | Initialize r | LoginWithCookie r | LoginWithCreds r | CreateOwner r
  | AcceptInvitation r => plain_response r
  | UpdateOtherUserSettings userId _ => plain_key userId
  | _ => true
  end.

(** A store that has its current id among the plain keys. *)
Definition plain_current (s : IUsersState) : bool :=
  plain_key (to_string (currentUserId s)).

(** A session: the users are fetched, one of them logs in and turns
    two-factor authentication on. *)
Definition session : list action :=
  [ FetchUsers (Resolved [named_pending]);
    LoginWithCookie (Resolved (Some activation));
    EnableMfa (Resolved tt) ].

(** A record sits under the key made of its own id, and its three derived
    booleans say what the predicates say of the record itself. *)
Definition record_ok (key : string) (r : obj) : Prop :=
  to_string (get r "id") = key
  ∧ r !! "isDefaultUser" = Some (VBool (isDefaultUser (Some r)))
  ∧ r !! "isPendingUser" = Some (VBool (isPendingUser (Some r)))
  ∧ r !! "isOwner" = Some (VBool (isInstanceOwner (Some r))).

Definition store_ok (s : IUsersState) : Prop := map_Forall record_ok (users s).

(** The fields that [record_ok] reads. *)
Definition protected_fields : list string :=
  ["id"; "isPending"; "globalRole"; "isDefaultUser"; "isPendingUser"; "isOwner"].

(** A computation keeps a property of the store. *)
Definition preserves {A} (P : IUsersState → Prop) (m : M A) : Prop :=
  ∀ w, P (store w) → P (store (m w).2).

(** The reason of the rejection, for a request that was rejected. *)
Definition rejection {A} (r : response A) : option string :=
  match r with
  | Resolved _ => None
  | Rejected reason => Some reason
  end.

(** The same for the request an action makes; four actions make none. *)
Definition request_rejection (a : action) : option string :=
  match a with
  | AddUsers _ | DeleteUserById _ | SetPersonalizationAnswers _
  | ShowPersonalizationSurvey _ => None
  | Initialize r | LoginWithCookie r | LoginWithCreds r | CreateOwner r
  | AcceptInvitation r => rejection r
  | Logout r | SendForgotPasswordEmail r | ValidatePasswordToken r | ChangePassword r
  | UpdateCurrentUserPassword r | DeleteUser _ r | SubmitPersonalizationSurvey _ r
  | VerifyMfaToken r | EnableMfa r | DisabledMfa r | ConfirmEmail r => rejection r
  | ValidateSignupToken r | UpdateUserSettings r | UpdateOtherUserSettings _ r
  | GetUserPasswordResetLink r | GetMfaQR r | FetchUserCloudAccount r => rejection r
  | UpdateUser r => rejection r
  | FetchUsers r => rejection r
  | InviteUsers r | ReinviteUser r => rejection r
  end.

(** What an action throws when its request is rejected for [reason]. *)
Definition thrown_on_rejection (a : action) (reason : string) : option exn :=
  match a with
  | Initialize _ => None
  | FetchUserCloudAccount _ => Some (Error reason)
  | _ => Some (ApiError reason)
  end.

(** * Properties *)

Section MergeUser.
Implicit Types (p u : obj) (f : string) (v : val).

Lemma derived_fields_spec f :
  f ∉ derived_fields ↔
  f ≠ "fullName" ∧ f ≠ "isDefaultUser" ∧ f ≠ "isPendingUser" ∧ f ≠ "isOwner".
Proof.
  unfold derived_fields. rewrite !not_elem_of_cons. split.
  - intros (?&?&?&?&_). done.
  - intros (?&?&?&?). repeat split; try done. apply not_elem_of_nil.
Qed.

Lemma merge_user_lookup_raw p u f :
  f ∉ derived_fields → merge_user p u !! f = (u ∪ p) !! f.
Proof.
  rewrite derived_fields_spec. intros (?&?&?&?).
  unfold merge_user, spread2. by rewrite !lookup_insert_ne.
Qed.

Lemma merge_user_get_raw p u f :
  f ∉ derived_fields → get (merge_user p u) f = get (spread2 p u) f.
Proof. intros ?. unfold get. by rewrite merge_user_lookup_raw. Qed.

Lemma merge_user_fullName p u :
  merge_user p u !! "fullName" = Some (fullName_of u (spread2 p u)).
Proof. unfold merge_user. rewrite !lookup_insert_ne by done. apply lookup_insert_eq. Qed.

Lemma merge_user_isDefaultUser p u :
  merge_user p u !! "isDefaultUser" = Some (VBool (isDefaultUser (Some (spread2 p u)))).
Proof. unfold merge_user. rewrite !lookup_insert_ne by done. apply lookup_insert_eq. Qed.

Lemma merge_user_isPendingUser p u :
  merge_user p u !! "isPendingUser" = Some (VBool (isPendingUser (Some (spread2 p u)))).
Proof. unfold merge_user. rewrite !lookup_insert_ne by done. apply lookup_insert_eq. Qed.

Lemma merge_user_isOwner p u :
  merge_user p u !! "isOwner" = Some (VBool (isInstanceOwner (Some (spread2 p u)))).
Proof. unfold merge_user. by rewrite lookup_insert_eq. Qed.

Lemma raw_names :
  ("id" ∉ derived_fields) ∧ ("firstName" ∉ derived_fields) ∧ ("lastName" ∉ derived_fields)
  ∧ ("isPending" ∉ derived_fields) ∧ ("globalRole" ∉ derived_fields).
Proof. rewrite !derived_fields_spec. repeat split; discriminate. Qed.

(** Overlaying the same response on the merged record changes no raw field. *)
Lemma spread2_merge_user p u f :
  f ∉ derived_fields → spread2 (merge_user p u) u !! f = spread2 p u !! f.
Proof.
  intros Hf. unfold spread2. rewrite !lookup_union, merge_user_lookup_raw by done.
  rewrite lookup_union. by destruct (u !! f), (p !! f).
Qed.

Lemma get_spread2_merge_user p u f :
  f ∉ derived_fields → get (spread2 (merge_user p u) u) f = get (spread2 p u) f.
Proof. intros ?. unfold get. by rewrite spread2_merge_user. Qed.

Lemma merge_user_idem p u : merge_user (merge_user p u) u = merge_user p u.
Proof.
  destruct raw_names as (_ & Hfn & Hln & Hp & Hg).
  apply map_eq. intros f.
  destruct (decide (f = "isOwner")) as [->|?].
  { rewrite !merge_user_isOwner. unfold isInstanceOwner.
    by rewrite get_spread2_merge_user. }
  destruct (decide (f = "isPendingUser")) as [->|?].
  { rewrite !merge_user_isPendingUser. unfold isPendingUser.
    by rewrite get_spread2_merge_user. }
  destruct (decide (f = "isDefaultUser")) as [->|?].
  { rewrite !merge_user_isDefaultUser. unfold isDefaultUser.
    by rewrite !get_spread2_merge_user. }
  destruct (decide (f = "fullName")) as [->|?].
  { rewrite !merge_user_fullName. unfold fullName_of.
    by rewrite !get_spread2_merge_user. }
  assert (f ∉ derived_fields) by (by apply derived_fields_spec).
  rewrite !merge_user_lookup_raw by done. by apply spread2_merge_user.
Qed.

(** The merged record carries the response's id when the response has one. *)
Lemma merge_user_id p u i : u !! "id" = Some i → get (merge_user p u) "id" = i.
Proof.
  intros Hi. destruct raw_names as (Hid & _).
  rewrite merge_user_get_raw by done. unfold get, spread2.
  by rewrite lookup_union, Hi, union_Some_l.
Qed.
End MergeUser.

Lemma addUsers_single s u :
  users (addUsers [u] s) = <[to_string (get (merged s u) "id") := merged s u]> (users s).
Proof. reflexivity. Qed.

Lemma addUsers_stored s u :
  users (addUsers [u] s) !! to_string (get (merged s u) "id") = Some (merged s u).
Proof. rewrite addUsers_single. apply lookup_insert_eq. Qed.

(** ** Merging: overlay of fields *)

(** C1, as stated, does not hold: a field of the stored record that the
    response does not carry can change.  The stored record of user "1" has
    [isPendingUser = true] and [fullName = "A B"]; the response
    [{id: "1", isPending: false}] carries neither property, and after the
    merge [isPendingUser] is [false] and [fullName] is [undefined]. *)
Lemma addUsers_overlay_counterexample :
  activation !! "isPendingUser" = None
  ∧ users stored_named !! "1" ≫= (.!! "isPendingUser") = Some (VBool true)
  ∧ users (addUsers [activation] stored_named) !! "1" ≫= (.!! "isPendingUser")
    = Some (VBool false)
  ∧ activation !! "fullName" = None
  ∧ users stored_named !! "1" ≫= (.!! "fullName") = Some (VStr "A B")
  ∧ users (addUsers [activation] stored_named) !! "1" ≫= (.!! "fullName")
    = Some VUndef.
Proof. repeat split; vm_compute; reflexivity. Qed.

(** C1, amended: when the response's id already keys a record, the merge
    writes under that id a record in which every field other than the four
    derived ones keeps the stored value if the response does not carry it
    and takes the response's value if it does, and in which the three
    derived booleans are recomputed from that record's own raw fields
    [isPending] and [globalRole]. *)
Theorem addUsers_overlay (s : IUsersState) (u prev : obj) (i : val) :
  u !! "id" = Some i →
  users s !! to_string i = Some prev →
  ∃ r, users (addUsers [u] s) !! to_string i = Some r
    ∧ (∀ f v, f ∉ derived_fields → u !! f = None → prev !! f = Some v → r !! f = Some v)
    ∧ (∀ f v, f ∉ derived_fields → u !! f = Some v → r !! f = Some v)
    ∧ r !! "isDefaultUser" = Some (VBool (isDefaultUser (Some r)))
    ∧ r !! "isPendingUser" = Some (VBool (isPendingUser (Some r)))
    ∧ r !! "isOwner" = Some (VBool (isInstanceOwner (Some r))).
Proof.
  intros Hi Hprev. destruct raw_names as (_ & _ & _ & Hp & Hg).
  assert (Hprev' : prev_of s u = prev).
  { unfold prev_of, get. rewrite Hi. simpl. by rewrite Hprev. }
  exists (merged s u). split.
  { rewrite <- (merge_user_id (prev_of s u) u i Hi). apply addUsers_stored. }
  unfold merged. rewrite Hprev'. split; [|split; [|split; [|split]]].
  - intros f v Hf Hu Hv. rewrite merge_user_lookup_raw by done.
    by rewrite lookup_union_r.
  - intros f v Hf Hu. rewrite merge_user_lookup_raw by done.
    by rewrite lookup_union, Hu, union_Some_l.
  - rewrite merge_user_isDefaultUser. unfold isDefaultUser.
    by rewrite !merge_user_get_raw.
  - rewrite merge_user_isPendingUser. unfold isPendingUser.
    by rewrite !merge_user_get_raw.
  - rewrite merge_user_isOwner. unfold isInstanceOwner.
    by rewrite !merge_user_get_raw.
Qed.

Lemma addUsers_overlay_witness :
  ∃ r, users (addUsers [settings_only] stored_named) !! "1" = Some r
    ∧ r !! "firstName" = Some (VStr "A")
    ∧ r !! "lastName" = Some (VStr "B")
    ∧ r !! "isPendingUser" = Some (VBool true).
Proof.
  assert (Hstored : users stored_named !! "1" = Some (merged initial_state named_pending)).
  { pose proof (addUsers_stored initial_state named_pending) as H.
    unfold merged in H at 1.
    rewrite (merge_user_id _ _ (VStr "1")) in H by (vm_compute; reflexivity).
    exact H. }
  destruct (addUsers_overlay stored_named settings_only (merged initial_state named_pending)
              (VStr "1")) as (r & Hr & Hkeep & _ & _ & Hpend & _).
  - vm_compute; reflexivity.
  - exact Hstored.
  - exists r. split; [exact Hr|]. split; [|split].
    + apply Hkeep; [apply raw_names | vm_compute; reflexivity | vm_compute; reflexivity].
    + apply Hkeep; [apply raw_names | vm_compute; reflexivity | vm_compute; reflexivity].
    + rewrite Hpend. unfold isPendingUser, get.
      rewrite (Hkeep "isPending" (VBool true)); [reflexivity | apply raw_names | |];
        vm_compute; reflexivity.
Defined.

(** ** Merging: idempotence *)

Lemma add_one_idem (us : gmap string obj) (u : obj) :
  add_one (add_one us u) u = add_one us u.
Proof.
  unfold add_one at 1.
  set (k := to_string (get u "id")).
  set (us1 := add_one us u).
  assert (Hprev : merge_user (default ∅ (us1 !! k)) u
                  = merge_user (default ∅ (us !! k)) u).
  { subst us1. unfold add_one. fold k.
    set (m := merge_user (default ∅ (us !! k)) u).
    destruct (decide (to_string (get m "id") = k)) as [->|Hne].
    - rewrite lookup_insert_eq. simpl. apply merge_user_idem.
    - by rewrite lookup_insert_ne. }
  rewrite Hprev. subst us1. unfold add_one. fold k.
  apply insert_insert_eq.
Qed.

(** C2: merging the same response twice in succession leaves exactly the
    store that merging it once leaves. *)
Theorem addUsers_idempotent (s : IUsersState) (u : obj) :
  addUsers [u] (addUsers [u] s) = addUsers [u] s.
Proof.
  unfold addUsers, set_users. simpl. by rewrite add_one_idem.
Qed.

(** ** Merging: the derived fields *)

(** What line 142 computes, on the fields of the written record. *)
Lemma merged_fullName (s : IUsersState) (u : obj) :
  merged s u !! "fullName" =
    Some (if truthy (get u "firstName")
          then VStr (to_string (get (merged s u) "firstName") ++ " "
                     ++ to_string (or_else (get (merged s u) "lastName") (VStr "")))
          else VUndef).
Proof.
  destruct raw_names as (_ & Hfn & Hln & _).
  unfold merged. rewrite merge_user_fullName. unfold fullName_of.
  by rewrite !merge_user_get_raw.
Qed.

(** C3 fails on the code where the first name comes from the stored record
    alone: when the response carries no [firstName] and the record stored
    under its id has a non-empty one, the merge writes a record that has
    that first name and an [undefined] [fullName], where C3 has the first
    name, a space and the last name.  Line 142 tests the response where
    the lines next to it read the merged record. *)
Theorem addUsers_fullName_erased (s : IUsersState) (u prev : obj) (first : string) :
  users s !! to_string (get u "id") = Some prev →
  prev !! "firstName" = Some (VStr first) → first ≠ "" →
  u !! "firstName" = None →
  users (addUsers [u] s) !! to_string (get (merged s u) "id") = Some (merged s u)
  ∧ merged s u !! "firstName" = Some (VStr first)
  ∧ merged s u !! "fullName" = Some VUndef.
Proof.
  intros Hprev Hfirst Hne Hu. destruct raw_names as (_ & Hfn & _).
  split; [apply addUsers_stored|]. split.
  - unfold merged, prev_of. rewrite Hprev. simpl.
    rewrite merge_user_lookup_raw by done. by rewrite lookup_union_r.
  - rewrite merged_fullName. unfold get at 1. by rewrite Hu.
Qed.

Lemma stored_named_record :
  users stored_named !! "1" = Some (merged initial_state named_pending).
Proof.
  pose proof (addUsers_stored initial_state named_pending) as H.
  unfold merged in H at 1.
  rewrite (merge_user_id _ _ (VStr "1")) in H by (vm_compute; reflexivity).
  exact H.
Qed.

Lemma addUsers_fullName_erased_witness :
  merged stored_named settings_only !! "firstName" = Some (VStr "A")
  ∧ merged stored_named settings_only !! "fullName" = Some VUndef.
Proof.
  destruct (addUsers_fullName_erased stored_named settings_only
              (merged initial_state named_pending) "A") as (_ & Hfirst & Hfull).
  - exact stored_named_record.
  - vm_compute; reflexivity.
  - discriminate.
  - vm_compute; reflexivity.
  - split; [exact Hfirst | exact Hfull].
Defined.

(** The example of C3 and of the specification's end-to-end test. *)
Example addUsers_fullName_A :
  users (addUsers [ {[ "id" := VStr "1"; "firstName" := VStr "A" ]} ] initial_state) !! "1"
    ≫= (.!! "fullName") = Some (VStr "A ").
Proof. vm_compute; reflexivity. Qed.

Example addUsers_fullName_last_only :
  users (addUsers [ {[ "id" := VStr "1"; "lastName" := VStr "B" ]} ] initial_state) !! "1"
    ≫= (.!! "fullName") = Some VUndef.
Proof. vm_compute; reflexivity. Qed.

Lemma truthy_Truthy (v : val) : truthy v = true ↔ Truthy v.
Proof.
  split.
  - destruct v as [| |[]|n|t|o]; simpl; intros H; try discriminate; try constructor.
    + intros ->. discriminate.
    + intros ->. discriminate.
  - intros [ |n Hn|t Ht|o]; simpl; try done.
    + apply negb_true_iff. by apply Z.eqb_neq.
    + apply negb_true_iff. by apply String.eqb_neq.
Qed.

Lemma truthy_get (r : obj) (k : string) :
  truthy (get r k) = true ↔ ∃ v, r !! k = Some v ∧ Truthy v.
Proof.
  unfold get. destruct (r !! k) as [v|]; simpl.
  - rewrite truthy_Truthy. split; [by exists v | by intros (v' & [= <-] & Hv)].
  - split; [done | by intros (v' & [=] & _)].
Qed.

Lemma owner_role_named (r : obj) :
  isInstanceOwner (Some r) = true ↔ role_named_owner r.
Proof.
  unfold isInstanceOwner, role_named_owner, get.
  destruct (r !! "globalRole") as [[| | | | |role]|]; simpl;
    try (split; [discriminate | by intros (role' & [=] & _)]).
  unfold get. destruct (role !! "name") as [[| | | |t|]|] eqn:Hname; simpl;
    try (split; [discriminate | by intros (role' & [= <-] & Hn); rewrite Hname in Hn]).
  rewrite bool_decide_eq_true. split.
  - intros ->. by exists role.
  - intros (role' & [= <-] & Hn). rewrite Hname in Hn. by injection Hn.
Qed.

(** C4: the record written by a merge holds three booleans; [isDefaultUser]
    is true exactly when the record is pending, has a role, and that
    role's name is the Owner constant; [isPendingUser] exactly when the
    record is pending; [isOwner] exactly when the role's name is the Owner
    constant, pending or not; without a role, [isOwner] and
    [isDefaultUser] are both false. *)
Theorem addUsers_derived_booleans (s : IUsersState) (u : obj) :
  let r := merged s u in
  users (addUsers [u] s) !! to_string (get r "id") = Some r
  ∧ ∃ d p o : bool,
      r !! "isDefaultUser" = Some (VBool d)
      ∧ r !! "isPendingUser" = Some (VBool p)
      ∧ r !! "isOwner" = Some (VBool o)
      ∧ (d = true ↔ pending r ∧ has_role r ∧ role_named_owner r)
      ∧ (p = true ↔ pending r)
      ∧ (o = true ↔ role_named_owner r)
      ∧ (r !! "globalRole" = None → o = false ∧ d = false).
Proof.
  destruct raw_names as (_ & _ & _ & Hp & Hg). intros r.
  split; [apply addUsers_stored|].
  exists (isDefaultUser (Some r)), (isPendingUser (Some r)), (isInstanceOwner (Some r)).
  split; [|split; [|split]].
  - subst r. unfold merged. rewrite merge_user_isDefaultUser. unfold isDefaultUser.
    by rewrite !merge_user_get_raw.
  - subst r. unfold merged. rewrite merge_user_isPendingUser. unfold isPendingUser.
    by rewrite !merge_user_get_raw.
  - subst r. unfold merged. rewrite merge_user_isOwner. unfold isInstanceOwner.
    by rewrite !merge_user_get_raw.
  - split; [|split; [|split]].
    + unfold isDefaultUser. rewrite !andb_true_iff.
      fold (isInstanceOwner (Some r)). rewrite owner_role_named.
      unfold pending, has_role. rewrite !truthy_get. tauto.
    + unfold isPendingUser, pending. apply truthy_get.
    + apply owner_role_named.
    + intros Hnone. unfold isDefaultUser, isInstanceOwner, get. rewrite Hnone. simpl.
      by rewrite andb_false_r.
Qed.

Lemma addUsers_derived_booleans_witness :
  merged initial_state pending_owner !! "isOwner" = Some (VBool true)
  ∧ merged initial_state pending_owner !! "isDefaultUser" = Some (VBool true)
  ∧ merged initial_state pending_no_role !! "globalRole" = None
  ∧ merged initial_state pending_no_role !! "isOwner" = Some (VBool false)
  ∧ merged initial_state pending_no_role !! "isDefaultUser" = Some (VBool false).
Proof.
  destruct (addUsers_derived_booleans initial_state pending_owner)
    as (_ & d & p & o & Hd & _ & Ho & Hdefault & _ & Howner & _).
  destruct (addUsers_derived_booleans initial_state pending_no_role)
    as (_ & d' & p' & o' & Hd' & _ & Ho' & _ & _ & _ & Hnorole).
  assert (Hnamed : role_named_owner (merged initial_state pending_owner)).
  { exists {[ "name" := VStr "owner" ]}. split; vm_compute; reflexivity. }
  assert (Hpending : pending (merged initial_state pending_owner)).
  { exists (VBool true). split; [vm_compute; reflexivity | constructor]. }
  assert (Hrole : has_role (merged initial_state pending_owner)).
  { exists (VObj {[ "name" := VStr "owner" ]}).
    split; [vm_compute; reflexivity | constructor]. }
  assert (Hnone : merged initial_state pending_no_role !! "globalRole" = None).
  { vm_compute; reflexivity. }
  destruct (Hnorole Hnone) as [-> ->].
  rewrite Ho, Hd, Ho', Hd'.
  rewrite (proj2 Howner Hnamed), (proj2 Hdefault (conj Hpending (conj Hrole Hnamed))).
  done.
Defined.

(** The specification's examples: a pending owner is the default user and
    an owner; an owner who is not pending is an owner only. *)
Example pending_owner_record :
  let r := merged initial_state
             {[ "id" := VStr "1"; "firstName" := VStr "A"; "isPending" := VBool true;
                "globalRole" := VObj {[ "name" := VStr "owner" ]} ]} in
  r !! "isDefaultUser" = Some (VBool true) ∧ r !! "isOwner" = Some (VBool true)
  ∧ r !! "fullName" = Some (VStr "A ").
Proof. repeat split; vm_compute; reflexivity. Qed.

Example active_owner_record :
  let r := merged initial_state
             {[ "id" := VStr "1"; "isPending" := VBool false;
                "globalRole" := VObj {[ "name" := VStr "owner" ]} ]} in
  r !! "isDefaultUser" = Some (VBool false) ∧ r !! "isOwner" = Some (VBool true).
Proof. repeat split; vm_compute; reflexivity. Qed.

(** ** Merging: what it leaves alone *)

(** C10: whatever the responses, a merge changes nothing of the store but
    the users mapping. *)
Theorem addUsers_frame (responses : list obj) (s : IUsersState) :
  currentUserId (addUsers responses s) = currentUserId s
  ∧ currentUserCloudInfo (addUsers responses s) = currentUserCloudInfo s
  ∧ initialized (addUsers responses s) = initialized s.
Proof. unfold addUsers, set_users. simpl. done. Qed.

(** ** Removal *)

(** C9: [deleteUserById] removes the given id from the users mapping and
    leaves every other entry as it was; it changes nothing when the id is
    absent; and it leaves [currentUserId] alone, also when that is the id
    removed. *)
Theorem deleteUserById_spec (userId : string) (s : IUsersState) :
  users (deleteUserById userId s) !! userId = None
  ∧ (∀ other, other ≠ userId → users (deleteUserById userId s) !! other = users s !! other)
  ∧ (users s !! userId = None → deleteUserById userId s = s)
  ∧ currentUserId (deleteUserById userId s) = currentUserId s.
Proof.
  unfold deleteUserById, set_users. simpl. split; [apply lookup_delete_eq|].
  split; [intros other Hne; by apply lookup_delete_ne|]. split; [|done].
  intros Habsent. rewrite delete_id by done. by destruct s.
Qed.

Lemma deleteUserById_spec_witness :
  users initial_state !! "1" = None ∧ deleteUserById "1" initial_state = initial_state.
Proof.
  destruct (deleteUserById_spec "1" initial_state) as (_ & _ & Hnoop & _).
  split; [reflexivity | apply Hnoop; reflexivity].
Defined.

(** Deleting the current user's own record leaves the pointer dangling. *)
Example deleteUserById_current :
  let s := deleteUserById "1" (set_currentUserId (VStr "1") stored_named) in
  currentUserId s = VStr "1" ∧ currentUser s = None.
Proof. split; vm_compute; reflexivity. Qed.

(** ** Session actions *)

(** After merging a response, the key made of its [id] is in the mapping,
    whether or not the response carries an id. *)
Lemma addUsers_id_in_dom (u : obj) (s : IUsersState) :
  to_string (get u "id") ∈ dom (users (addUsers [u] s)).
Proof.
  rewrite addUsers_single, dom_insert. apply elem_of_union.
  destruct (u !! "id") as [i|] eqn:Hi.
  - left. apply elem_of_singleton. unfold merged.
    rewrite (merge_user_id _ _ i Hi). unfold get. by rewrite Hi.
  - destruct (users s !! to_string (get u "id")) as [prev|] eqn:Hprev.
    + right. apply elem_of_dom. by exists prev.
    + left. apply elem_of_singleton. f_equal.
      destruct raw_names as (Hid & _).
      unfold merged, prev_of. rewrite Hprev. simpl.
      rewrite merge_user_get_raw by done. unfold get, spread2.
      by rewrite lookup_union, Hi, lookup_empty.
Qed.



(** A run that assigned the id before merging the user would not do: in
    the empty store the id of a new user keys nothing yet. *)
Example assignment_before_merge :
  ¬ assigned_in_users
      (before_each [AssignCurrentUserId (VStr "1"); AddUsersStmt [named_pending]]
                   initial_world).
Proof.
  intros H. apply Forall_cons in H as [H _]. simpl in H.
  by apply not_elem_of_empty in H.
Qed.

(** The id stays a key up to the end of each of these actions. *)
Lemma login_current_in_users (u : obj) (w : World) :
  let w' := (loginWithCookie (Resolved (Some u)) w).2 in
  currentUserId (store w') = get u "id"
  ∧ to_string (currentUserId (store w')) ∈ dom (users (store w')).
Proof. split; [reflexivity | apply addUsers_id_in_dom]. Qed.

(** Without a user in the response, or on a rejected request, the four
    actions write nothing. *)
Lemma login_no_user (w : World) :
  loginWithCookie (Resolved None) w = (Return tt, w)
  ∧ loginWithCreds (Resolved None) w = (Return tt, w)
  ∧ createOwner (Resolved None) w = (Return tt, w)
  ∧ acceptInvitation (Resolved None) w = (Return tt, w).
Proof. repeat split; reflexivity. Qed.

Lemma login_rejected (reason : string) (w : World) :
  loginWithCookie (Rejected reason) w = (Throw (ApiError reason), w)
  ∧ loginWithCreds (Rejected reason) w = (Throw (ApiError reason), w)
  ∧ createOwner (Rejected reason) w = (Throw (ApiError reason), w)
  ∧ acceptInvitation (Rejected reason) w = (Throw (ApiError reason), w).
Proof. repeat split; reflexivity. Qed.

(** C6: when the logout request fails, [logout] throws that failure and
    leaves the store and the collaborators untouched; when it succeeds,
    [currentUserId] and [currentUserCloudInfo] end up [null]. *)
Theorem logout_atomic (w : World) :
  (∀ reason, logout (Rejected reason) w = (Throw (ApiError reason), w))
  ∧ ∃ w', logout (Resolved tt) w = (Return tt, w')
      ∧ currentUserId (store w') = VNull
      ∧ currentUserCloudInfo (store w') = VNull
      ∧ users (store w') = users (store w)
      ∧ calls w' = ClearBannerStack :: PostHogReset :: CloudPlanReset :: calls w.
Proof.
  split; [reflexivity|]. eexists. split; [reflexivity|]. repeat split.
Qed.

(** ** Invitations *)

(** C8: given the results of the invitation request, [reinviteUser] throws
    exactly when the first result's [emailSent] is falsy, and what it
    throws is an [Error] whose message is that result's [error]. *)
Theorem reinviteUser_error (first : IInviteResponse) (rest : list IInviteResponse)
    (w : World) :
  let result := reinviteUser (Resolved (first :: rest)) w in
  result.2 = w
  ∧ ((∃ e, result.1 = Throw e) ↔ truthy (get (user first) "emailSent") = false)
  ∧ (truthy (get (user first) "emailSent") = true → result.1 = Return tt)
  ∧ (∀ message, truthy (get (user first) "emailSent") = false →
       error first = Some message → result.1 = Throw (Error message)).
Proof.
  intros result. subst result. unfold reinviteUser, bind. simpl.
  destruct (truthy (get (user first) "emailSent")); simpl.
  - split; [done|]. split; [|split; [done|intros; done]].
    split; [intros [e He]; discriminate | discriminate].
  - split; [done|]. split; [|split; [discriminate|]].
    + split; [done | intros _; eauto].
    + intros message _ ->. done.
Qed.

Lemma reinviteUser_error_witness :
  truthy (get (user bounced) "emailSent") = false
  ∧ (reinviteUser (Resolved [bounced]) (mkWorld initial_state [])).1
    = Throw (Error "bounced").
Proof.
  destruct (reinviteUser_error bounced [] (mkWorld initial_state []))
    as (_ & _ & _ & Hmsg).
  split; [reflexivity | apply Hmsg; reflexivity].
Defined.

(** A request without results, and a rejected one, throw as well, before
    any result is looked at. *)
Lemma reinviteUser_no_result (reason : string) (w : World) :
  reinviteUser (Resolved []) w = (Throw TypeError, w)
  ∧ reinviteUser (Rejected reason) w = (Throw (ApiError reason), w).
Proof. split; reflexivity. Qed.

(** ** Initialization *)

Section KeepsInitialized.
Context {A B : Type}.

Lemma keeps_ret (a : A) : keeps_initialized (ret a).
Proof. by intros w. Qed.

Lemma keeps_throw (e : exn) : keeps_initialized (@throw A e).
Proof. by intros w. Qed.

Lemma keeps_await (r : response A) : keeps_initialized (await r).
Proof. destruct r; by intros w. Qed.

Lemma keeps_bind (m : M A) (k : A → M B) :
  keeps_initialized m → (∀ a, keeps_initialized (k a)) → keeps_initialized (bind m k).
Proof.
  intros Hm Hk w Hw. unfold bind. specialize (Hm w Hw).
  destruct (m w) as [[a|e] w']; simpl in *; [by apply Hk | done].
Qed.

Lemma keeps_try_catch (m : M A) (h : exn → M A) :
  keeps_initialized m → (∀ e, keeps_initialized (h e)) → keeps_initialized (try_catch m h).
Proof.
  intros Hm Hh w Hw. unfold try_catch. specialize (Hm w Hw).
  destruct (m w) as [[a|e] w']; simpl in *; [done | by apply Hh].
Qed.
End KeepsInitialized.

Lemma keeps_read : keeps_initialized read.
Proof. by intros w. Qed.

Lemma keeps_invoke (c : call) : keeps_initialized (invoke c).
Proof. by intros w. Qed.

Lemma keeps_modify (f : IUsersState → IUsersState) :
  (∀ s, initialized s = true → initialized (f s) = true) → keeps_initialized (modify f).
Proof. intros Hf w Hw. by apply Hf. Qed.

Lemma setPersonalizationAnswers_initialized (answers : val) (s : IUsersState) :
  initialized (setPersonalizationAnswers answers s) = initialized s.
Proof. unfold setPersonalizationAnswers. by destruct (currentUser s). Qed.

Create HintDb keeps discriminated.

#[local] Hint Resolve keeps_ret keeps_throw keeps_await keeps_read keeps_invoke : keeps.

(** Takes a computation apart along its binds, handlers and case
    distinctions; the writes that remain are closed by computation. *)
Ltac keeps_step :=
  match goal with
  | |- keeps_initialized (perform _) =>
      cbn [perform exec_stmt loginWithCookie_body loginWithCreds_body
             createOwner_body acceptInvitation_body]
  | |- keeps_initialized (bind _ _) => apply keeps_bind; [|intros ?]
  | |- keeps_initialized (try_catch _ _) => apply keeps_try_catch; [|intros ?]
  | |- keeps_initialized (modify (setPersonalizationAnswers _)) =>
      apply keeps_modify; intros ? ?; by rewrite setPersonalizationAnswers_initialized
  | |- keeps_initialized (modify _) => apply keeps_modify; intros ? ?; done
  | |- keeps_initialized (match ?x with _ => _ end) => destruct x
  | |- keeps_initialized (if ?b then _ else _) => destruct b
  | |- keeps_initialized _ => solve [auto with keeps]
  end.

Ltac keeps := repeat keeps_step.

Lemma keeps_loginWithCookie r : keeps_initialized (loginWithCookie r).
Proof. unfold loginWithCookie. keeps. Qed.

Lemma keeps_initialize r : keeps_initialized (initialize r).
Proof. unfold initialize. keeps. apply keeps_loginWithCookie. Qed.

Lemma keeps_run {A} (m : M A) (w : World) : (run m w).2 = (m w).2.
Proof. unfold run. by destruct (m w) as [[a|e] w']. Qed.

(** No action of the store unsets the flag. *)
Lemma exec_keeps_initialized (a : action) (w : World) :
  initialized (store w) = true → initialized (store (exec a w).2) = true.
Proof.
  intros Hw.
  destruct a; unfold exec; rewrite keeps_run; revert w Hw;
    match goal with |- ∀ w, _ → initialized (store (?m w).2) = true =>
      change (keeps_initialized m) end;
    try apply keeps_initialize;
    unfold loginWithCookie, loginWithCreds, logout, createOwner, validateSignupToken,
      acceptInvitation, sendForgotPasswordEmail, validatePasswordToken, changePassword,
      updateUser, updateUserSettings, updateOtherUserSettings, updateCurrentUserPassword,
      deleteUser, fetchUsers, inviteUsers, reinviteUser, getUserPasswordResetLink,
      submitPersonalizationSurvey, showPersonalizationSurvey, getMfaQR, verifyMfaToken,
      enableMfa, disabledMfa, fetchUserCloudAccount, confirmEmail;
    keeps.
Qed.

(** [try { ... } catch (e) {}] throws nothing. *)
Lemma try_catch_swallow (m : M unit) (w : World) :
  (try_catch m (fun _ => ret tt) w).1 = Return tt.
Proof. unfold try_catch. by destruct (m w) as [[[]|e] w']. Qed.

(** C7: [initialize] never throws; with the flag already set it does
    nothing; and once the flag is set no action of the store unsets it. *)
Theorem initialize_guarded (r : response (option obj)) (a : action) (w : World) :
  (initialize r w).1 = Return tt
  ∧ (initialized (store w) = true →
     initialize r w = (Return tt, w) ∧ initialized (store (exec a w).2) = true).
Proof.
  split.
  - unfold initialize, bind, read. simpl.
    destruct (initialized (store w)); [done | apply try_catch_swallow].
  - intros Hw. split; [|by apply exec_keeps_initialized].
    unfold initialize, bind, read. simpl. by rewrite Hw.
Qed.

Lemma initialize_guarded_witness :
  initialized (store ready) = true
  ∧ initialize (Rejected "offline") ready = (Return tt, ready)
  ∧ initialized (store (exec (Logout (Resolved tt)) ready).2) = true.
Proof.
  destruct (initialize_guarded (Rejected "offline") (Logout (Resolved tt)) ready)
    as (_ & Hready).
  split; [reflexivity | apply Hready; reflexivity].
Defined.

(** What the guarded attempt does from a store not yet initialized: the
    flag is set when the cookie login returns, with or without a user, and
    stays unset, without an error, when it fails. *)
Lemma initialize_first (w : World) :
  initialized (store w) = false →
  (∀ reason, initialize (Rejected reason) w = (Return tt, w))
  ∧ initialize (Resolved None) w = (Return tt, on_store (set_initialized true) w)
  ∧ ∀ u, ∃ w', initialize (Resolved (Some u)) w = (Return tt, w')
       ∧ initialized (store w') = true ∧ currentUserId (store w') = get u "id".
Proof.
  intros Hw. unfold initialize, bind, read. simpl. rewrite Hw.
  split; [reflexivity|]. split; [reflexivity|].
  intros u. eexists. split; [reflexivity|]. by split.
Qed.


(** * Further properties of the store *)

(** ** The merge as an operation on the mapping *)

(** Merging one response touches one entry of the mapping: every key other
    than the one written keeps what it had. *)
Theorem addUsers_other_keys (s : IUsersState) (u : obj) (key : string) :
  key ≠ to_string (get (merged s u) "id") →
  users (addUsers [u] s) !! key = users s !! key.
Proof. intros Hne. rewrite addUsers_single. by rewrite lookup_insert_ne. Qed.

Lemma addUsers_other_keys_witness :
  users (addUsers [settings_only] stored_named) !! "2" = users stored_named !! "2".
Proof.
  apply addUsers_other_keys. vm_compute. discriminate.
Defined.

(** Merging a batch in two parts is merging the whole batch, the loop
    reading the mapping anew at every turn; so fetching the users in two
    requests leaves the world that one request for all of them leaves. *)
Theorem addUsers_app (first second : list obj) (s : IUsersState) (w : World) :
  addUsers (first ++ second)%list s = addUsers second (addUsers first s)
  ∧ fetchUsers (Resolved (first ++ second)%list) w
    = fetchUsers (Resolved second) (fetchUsers (Resolved first) w).2.
Proof.
  assert (Happ : ∀ s, addUsers (first ++ second)%list s = addUsers second (addUsers first s)).
  { intros s0. unfold addUsers, set_users. simpl. by rewrite foldl_app. }
  split; [apply Happ|].
  unfold fetchUsers, bind, modify, on_store. simpl. by rewrite Happ.
Qed.

Lemma add_one_dom (us : gmap string obj) (u : obj) :
  dom us ⊆ dom (add_one us u) ∧ to_string (get u "id") ∈ dom (add_one us u).
Proof.
  split; [apply dom_insert_subseteq|].
  pose proof (addUsers_id_in_dom u (set_users us initial_state)) as H.
  exact H.
Qed.

Lemma foldl_add_one_dom (l : list obj) (us : gmap string obj) :
  dom us ⊆ dom (foldl add_one us l).
Proof.
  revert us. induction l as [|u l IH]; intros us; simpl; [done|].
  etrans; [apply (add_one_dom us u) | apply IH].
Qed.

(** A merge removes no key, and after it the id of every response of the
    batch keys a record. *)
Theorem addUsers_keys (responses : list obj) (s : IUsersState) :
  dom (users s) ⊆ dom (users (addUsers responses s))
  ∧ ∀ u, u ∈ responses → to_string (get u "id") ∈ dom (users (addUsers responses s)).
Proof.
  unfold addUsers, set_users. simpl. split; [apply foldl_add_one_dom|].
  generalize (users s). induction responses as [|u' l IH]; intros us u Hin.
  - by apply elem_of_nil in Hin.
  - simpl. apply elem_of_cons in Hin as [->|Hin]; [|by apply IH].
    apply (foldl_add_one_dom l (add_one us u')), add_one_dom.
Qed.

Lemma addUsers_keys_witness :
  "1" ∈ dom (users (addUsers [activation; settings_only] initial_state)).
Proof.
  destruct (addUsers_keys [activation; settings_only] initial_state) as [_ H].
  apply (H settings_only). do 2 constructor.
Defined.

Lemma add_one_with_id (us : gmap string obj) (u : obj) (i : val) :
  u !! "id" = Some i →
  add_one us u = <[to_string i := merge_user (default ∅ (us !! to_string i)) u]> us.
Proof.
  intros Hi. unfold add_one.
  assert (Hget : get u "id" = i) by (unfold get; by rewrite Hi).
  rewrite Hget. by rewrite (merge_user_id _ _ i Hi).
Qed.

(** Responses for two different ids can be merged in either order. *)
Theorem addUsers_swap (s : IUsersState) (u1 u2 : obj) (i1 i2 : val) :
  u1 !! "id" = Some i1 → u2 !! "id" = Some i2 → to_string i1 ≠ to_string i2 →
  addUsers [u1; u2] s = addUsers [u2; u1] s.
Proof.
  intros H1 H2 Hne. unfold addUsers. f_equal. simpl.
  rewrite (add_one_with_id (add_one _ u1) u2 i2 H2), (add_one_with_id _ u1 i1 H1).
  rewrite (add_one_with_id (add_one _ u2) u1 i1 H1), (add_one_with_id _ u2 i2 H2).
  rewrite !lookup_insert_ne by done. by apply insert_insert_ne.
Qed.

Lemma addUsers_swap_witness :
  addUsers [named_pending; {[ "id" := VStr "2" ]}] initial_state
  = addUsers [{[ "id" := VStr "2" ]}; named_pending] initial_state.
Proof.
  apply (addUsers_swap _ _ _ (VStr "1") (VStr "2"));
    [vm_compute; reflexivity | vm_compute; reflexivity | discriminate].
Defined.

(** Removing the record of a user that a merge has just added, under an id
    that was free, gives back the store as it was. *)
Theorem deleteUserById_addUsers (s : IUsersState) (u : obj) (i : val) :
  u !! "id" = Some i → users s !! to_string i = None →
  deleteUserById (to_string i) (addUsers [u] s) = s.
Proof.
  intros Hi Hfree. unfold deleteUserById, addUsers, set_users. simpl.
  rewrite (add_one_with_id _ u i Hi), delete_insert_id by done. by destruct s.
Qed.

Lemma deleteUserById_addUsers_witness :
  deleteUserById "1" (addUsers [named_pending] initial_state) = initial_state.
Proof.
  apply (deleteUserById_addUsers initial_state named_pending (VStr "1"));
    vm_compute; reflexivity.
Defined.

(** Removing the record of the current user leaves [currentUserId] as it
    is, and the getter [currentUser] then finds nothing, the current id
    naming no member of [Object.prototype]. *)
Theorem deleteUserById_current_user (s : IUsersState) :
  plain_current s = true →
  let s' := deleteUserById (to_string (currentUserId s)) s in
  currentUserId s' = currentUserId s ∧ currentUser s' = None.
Proof.
  intros _. split; [reflexivity|]. unfold currentUser, deleteUserById, set_users. simpl.
  destruct (truthy (currentUserId s)); [apply lookup_delete_eq | done].
Qed.

Lemma deleteUserById_current_user_witness :
  currentUser (deleteUserById "1" (store logged_in)) = None.
Proof.
  destruct (deleteUserById_current_user (store logged_in)) as [_ Hnone];
    [reflexivity | exact Hnone].
Defined.


(** ** What every action keeps *)

Section Preserves.
Context {A B : Type} (P : IUsersState → Prop).

Lemma preserves_ret (a : A) : preserves P (ret a).
Proof. by intros w. Qed.

Lemma preserves_throw (e : exn) : preserves P (@throw A e).
Proof. by intros w. Qed.

Lemma preserves_await (r : response A) : preserves P (await r).
Proof. destruct r; by intros w. Qed.

Lemma preserves_bind (m : M A) (k : A → M B) :
  preserves P m → (∀ a, preserves P (k a)) → preserves P (bind m k).
Proof.
  intros Hm Hk w Hw. unfold bind. specialize (Hm w Hw).
  destruct (m w) as [[a|e] w']; simpl in *; [by apply Hk | done].
Qed.

Lemma preserves_try_catch (m : M A) (h : exn → M A) :
  preserves P m → (∀ e, preserves P (h e)) → preserves P (try_catch m h).
Proof.
  intros Hm Hh w Hw. unfold try_catch. specialize (Hm w Hw).
  destruct (m w) as [[a|e] w']; simpl in *; [done | by apply Hh].
Qed.
End Preserves.

Lemma preserves_read (P : IUsersState → Prop) : preserves P read.
Proof. by intros w. Qed.

Lemma preserves_invoke (P : IUsersState → Prop) (c : call) : preserves P (invoke c).
Proof. by intros w. Qed.

Lemma preserves_modify (P : IUsersState → Prop) (f : IUsersState → IUsersState) :
  (∀ s, P s → P (f s)) → preserves P (modify f).
Proof. intros Hf w Hw. by apply Hf. Qed.

Lemma protected_fields_spec (f : string) :
  f ∉ protected_fields ↔
  f ≠ "id" ∧ f ≠ "isPending" ∧ f ≠ "globalRole" ∧ f ≠ "isDefaultUser"
  ∧ f ≠ "isPendingUser" ∧ f ≠ "isOwner".
Proof.
  unfold protected_fields. rewrite !not_elem_of_cons. split.
  - intros (?&?&?&?&?&?&_). done.
  - intros (?&?&?&?&?&?). repeat split; try done. apply not_elem_of_nil.
Qed.

Lemma record_ok_merge_user (p u : obj) :
  record_ok (to_string (get (merge_user p u) "id")) (merge_user p u).
Proof.
  destruct raw_names as (_ & _ & _ & Hp & Hg).
  split; [done|]. split; [|split].
  - rewrite merge_user_isDefaultUser. unfold isDefaultUser.
    by rewrite !merge_user_get_raw.
  - rewrite merge_user_isPendingUser. unfold isPendingUser.
    by rewrite !merge_user_get_raw.
  - rewrite merge_user_isOwner. unfold isInstanceOwner.
    by rewrite !merge_user_get_raw.
Qed.

Lemma get_insert_ne (r : obj) (f g : string) (v : val) :
  f ≠ g → get (<[f:=v]> r) g = get r g.
Proof. intros ?. unfold get. by rewrite lookup_insert_ne. Qed.

(** Writing a field that [record_ok] does not read keeps [record_ok]. *)
Lemma record_ok_insert (key f : string) (v : val) (r : obj) :
  f ∉ protected_fields → record_ok key r → record_ok key (<[f:=v]> r).
Proof.
  rewrite protected_fields_spec. intros (?&?&?&?&?&?) (Hid & Hd & Hp & Ho).
  unfold record_ok, isDefaultUser, isPendingUser, isInstanceOwner in *.
  rewrite !get_insert_ne, !lookup_insert_ne by done. done.
Qed.

Lemma store_ok_add_one (us : gmap string obj) (u : obj) :
  map_Forall record_ok us → map_Forall record_ok (add_one us u).
Proof. intros Hus. apply map_Forall_insert_2; [apply record_ok_merge_user | done]. Qed.

Lemma store_ok_addUsers (responses : list obj) (s : IUsersState) :
  store_ok s → store_ok (addUsers responses s).
Proof.
  unfold store_ok, addUsers, set_users. simpl. generalize (users s).
  induction responses as [|u l IH]; intros us Hus; simpl; [done|].
  by apply IH, store_ok_add_one.
Qed.

Lemma store_ok_deleteUserById (userId : string) (s : IUsersState) :
  store_ok s → store_ok (deleteUserById userId s).
Proof. apply map_Forall_delete. Qed.

Lemma store_ok_currentUser (s : IUsersState) (cu : obj) :
  store_ok s → currentUser s = Some cu → record_ok (to_string (currentUserId s)) cu.
Proof.
  unfold currentUser. intros Hs Hcu.
  destruct (truthy (currentUserId s)); [by apply (Hs _ _ Hcu) | done].
Qed.

Lemma store_ok_setPersonalizationAnswers (answers : val) (s : IUsersState) :
  store_ok s → store_ok (setPersonalizationAnswers answers s).
Proof.
  intros Hs. unfold setPersonalizationAnswers.
  destruct (currentUser s) as [cu|] eqn:Hcu; [|done].
  pose proof (store_ok_currentUser s cu Hs Hcu) as Hok.
  apply map_Forall_insert_2; [|done].
  apply record_ok_insert.
  - apply protected_fields_spec. repeat split; discriminate.
  - destruct Hok as (_ & Hrest). by split.
Qed.

Lemma store_ok_assign_in_place (key f : string) (v : val) (s : IUsersState) :
  f ∉ protected_fields → store_ok s → store_ok (assign_in_place key f v s).
Proof.
  intros Hf Hs k r. unfold assign_in_place, set_users. simpl.
  rewrite lookup_alter. case_decide as Hk.
  - subst k. destruct (users s !! key) as [r0|] eqn:Hr0; simpl; [|done].
    intros [= <-]. apply record_ok_insert; [done | by apply (Hs _ _ Hr0)].
  - apply Hs.
Qed.

Ltac preserves_step :=
  match goal with
  | |- preserves _ (perform _) =>
      cbn [perform exec_stmt loginWithCookie_body loginWithCreds_body
             createOwner_body acceptInvitation_body]
  | |- preserves _ (bind _ _) => apply preserves_bind; [|intros ?]
  | |- preserves _ (try_catch _ _) => apply preserves_try_catch; [|intros ?]
  | |- preserves _ (ret _) => apply preserves_ret
  | |- preserves _ (throw _) => apply preserves_throw
  | |- preserves _ (await _) => apply preserves_await
  | |- preserves _ read => apply preserves_read
  | |- preserves _ (invoke _) => apply preserves_invoke
  | |- preserves store_ok (modify (addUsers _)) =>
      apply preserves_modify; intros ?; apply store_ok_addUsers
  | |- preserves store_ok (modify (deleteUserById _)) =>
      apply preserves_modify; intros ?; apply store_ok_deleteUserById
  | |- preserves store_ok (modify (setPersonalizationAnswers _)) =>
      apply preserves_modify; intros ?; apply store_ok_setPersonalizationAnswers
  | |- preserves store_ok (modify (assign_in_place _ _ _)) =>
      apply preserves_modify; intros ?; apply store_ok_assign_in_place;
      apply protected_fields_spec; repeat split; discriminate
  | |- preserves store_ok (modify _) => apply preserves_modify; intros ? ?; assumption
  | |- preserves _ (match ?x with _ => _ end) => destruct x
  end.

Lemma exec_store_ok (a : action) (w : World) :
  store_ok (store w) → store_ok (store (exec a w).2).
Proof.
  intros Hw.
  destruct a; unfold exec; rewrite keeps_run; revert w Hw;
    match goal with |- ∀ w, _ → store_ok (store (?m w).2) =>
      change (preserves store_ok m) end;
    unfold initialize, loginWithCookie, loginWithCreds, logout, createOwner,
      validateSignupToken, acceptInvitation, sendForgotPasswordEmail,
      validatePasswordToken, changePassword, updateUser, updateUserSettings,
      updateOtherUserSettings, updateCurrentUserPassword, deleteUser, fetchUsers,
      inviteUsers, reinviteUser, getUserPasswordResetLink, submitPersonalizationSurvey,
      showPersonalizationSurvey, getMfaQR, verifyMfaToken, enableMfa, disabledMfa,
      fetchUserCloudAccount, confirmEmail;
    repeat preserves_step.
Qed.

Lemma run_all_keeps_store_ok (actions : list action) (w : World) :
  store_ok (store w) → store_ok (store (run_all actions w)).
Proof.
  revert w. induction actions as [|a l IH]; intros w Hw; simpl; [done|].
  by apply IH, exec_store_ok.
Qed.

Lemma setPersonalizationAnswers_frame (answers : val) (s : IUsersState) :
  currentUserId (setPersonalizationAnswers answers s) = currentUserId s
  ∧ currentUserCloudInfo (setPersonalizationAnswers answers s) = currentUserCloudInfo s.
Proof. unfold setPersonalizationAnswers. by destruct (currentUser s). Qed.

Ltac frame_step :=
  match goal with
  | |- preserves _ (perform _) =>
      cbn [perform exec_stmt loginWithCookie_body loginWithCreds_body
             createOwner_body acceptInvitation_body]
  | |- preserves _ (bind _ _) => apply preserves_bind; [|intros ?]
  | |- preserves _ (try_catch _ _) => apply preserves_try_catch; [|intros ?]
  | |- preserves _ (ret _) => apply preserves_ret
  | |- preserves _ (throw _) => apply preserves_throw
  | |- preserves _ (await _) => apply preserves_await
  | |- preserves _ read => apply preserves_read
  | |- preserves _ (invoke _) => apply preserves_invoke
  | |- preserves _ (modify (setPersonalizationAnswers _)) =>
      apply preserves_modify; intros ? ?;
      first [ by rewrite (proj1 (setPersonalizationAnswers_frame _ _))
            | by rewrite (proj2 (setPersonalizationAnswers_frame _ _)) ]
  | |- preserves _ (modify _) => apply preserves_modify; intros ? ?; assumption
  | |- preserves _ (match ?x with _ => _ end) => destruct x
  end.

Ltac unfold_actions :=
  unfold initialize, loginWithCookie, loginWithCreds, logout, createOwner,
    validateSignupToken, acceptInvitation, sendForgotPasswordEmail,
    validatePasswordToken, changePassword, updateUser, updateUserSettings,
    updateOtherUserSettings, updateCurrentUserPassword, deleteUser, fetchUsers,
    inviteUsers, reinviteUser, getUserPasswordResetLink, submitPersonalizationSurvey,
    showPersonalizationSurvey, getMfaQR, verifyMfaToken, enableMfa, disabledMfa,
    fetchUserCloudAccount, confirmEmail.

Lemma exec_currentUserId (a : action) (w : World) :
  assigns_currentUserId a = false →
  currentUserId (store (exec a w).2) = currentUserId (store w).
Proof.
  intros Ha. set (c := currentUserId (store w)).
  assert (Hw : (λ s, currentUserId s = c) (store w)) by done.
  revert Hw. generalize c. clear c. intros c. revert w.
  destruct a; try discriminate Ha; clear Ha; unfold exec; intros w;
    rewrite keeps_run; revert w;
    match goal with |- ∀ w, _ → currentUserId (store (?m w).2) = c =>
      change (preserves (λ s, currentUserId s = c) m) end;
    unfold_actions; repeat frame_step.
Qed.

Lemma exec_plain_current (a : action) (w : World) :
  plain_action a = true → plain_current (store w) = true →
  plain_current (store (exec a w).2) = true.
Proof.
  intros Ha Hw. destruct (assigns_currentUserId a) eqn:Hassign.
  - destruct a; try discriminate Hassign; unfold exec; rewrite keeps_run;
      try (destruct r as [[u|]|reason]; simpl in *; first [assumption | reflexivity]).
    + unfold initialize, bind, read. simpl.
      destruct (initialized (store w)); [done|].
      destruct r as [[u|]|reason]; simpl in *; assumption.
    + destruct r as [[]|reason]; simpl; [reflexivity | assumption].
  - unfold plain_current. by rewrite exec_currentUserId.
Qed.

Lemma run_all_keeps_plain (actions : list action) (w : World) :
  forallb plain_action actions = true → plain_current (store w) = true →
  plain_current (store (run_all actions w)) = true.
Proof.
  revert w. induction actions as [|a l IH]; intros w Hl Hw; simpl in *; [done|].
  apply andb_true_iff in Hl as [Ha Hl]. by apply IH, exec_plain_current.
Qed.

(** A run of actions that make no id naming a member of
    [Object.prototype] the current one, and look no such id up, keeps the
    store in order: at its end, as at its start, every record sits under
    the key made of its own id and has derived booleans that agree with
    its raw fields, and the current id is still plain.  The initial store
    is in order. *)
Theorem run_all_store_ok (actions : list action) (w : World) :
  (store_ok (store initial_world) ∧ plain_current (store initial_world) = true)
  ∧ (forallb plain_action actions = true →
     plain_current (store w) = true → store_ok (store w) →
     store_ok (store (run_all actions w))
     ∧ plain_current (store (run_all actions w)) = true).
Proof.
  split; [split; [apply map_Forall_empty | reflexivity]|].
  intros Hplain Hcurrent Hok.
  split; [by apply run_all_keeps_store_ok | by apply run_all_keeps_plain].
Qed.

Lemma run_all_store_ok_witness :
  users (store (run_all session initial_world)) !! "1" ≫= (.!! "mfaEnabled")
  = Some (VBool true)
  ∧ store_ok (store (run_all session initial_world)).
Proof.
  destruct (run_all_store_ok session initial_world) as [[Hinitial Hplain] Hkept].
  split; [vm_compute; reflexivity|].
  apply Hkept; [reflexivity | exact Hplain | exact Hinitial].
Defined.


(** ** The current user after the session actions *)

Lemma addUsers_lookup_id (s : IUsersState) (u : obj) (i : val) :
  u !! "id" = Some i → users (addUsers [u] s) !! to_string i = Some (merged s u).
Proof.
  intros Hi. rewrite <- (merge_user_id (prev_of s u) u i Hi). apply addUsers_stored.
Qed.

Lemma currentUser_after_merge (s : IUsersState) (u : obj) :
  currentUser (set_currentUserId (get u "id") (addUsers [u] s))
  = if truthy (get u "id") then Some (merged s u) else None.
Proof.
  unfold currentUser. simpl. destruct (truthy (get u "id")) eqn:Hid; [|done].
  destruct (u !! "id") as [i|] eqn:Hi.
  - assert (Hget : get u "id" = i) by (unfold get; by rewrite Hi).
    rewrite Hget. by apply addUsers_lookup_id.
  - unfold get in Hid. rewrite Hi in Hid. discriminate.
Qed.

(** After each of the four actions that log a user in, the getter
    [currentUser] gives the merged record of that user, provided the id in
    the response is truthy; with a missing or empty id it gives nothing,
    although the record has been merged. *)
Theorem login_currentUser (u : obj) (w : World) :
  let found := if truthy (get u "id") then Some (merged (store w) u) else None in
  currentUser (store (loginWithCookie (Resolved (Some u)) w).2) = found
  ∧ currentUser (store (loginWithCreds (Resolved (Some u)) w).2) = found
  ∧ currentUser (store (createOwner (Resolved (Some u)) w).2) = found
  ∧ currentUser (store (acceptInvitation (Resolved (Some u)) w).2) = found.
Proof. repeat split; apply currentUser_after_merge. Qed.

Lemma logged_in_currentUser :
  currentUser (store logged_in) = Some (merged initial_state named_pending).
Proof. exact (currentUser_after_merge initial_state named_pending). Qed.

(** In every store the actions can reach from the initial one, the getters
    [isDefaultUser] and [isInstanceOwner] say what the flags stored on the
    current user's record say, and that record carries the current id;
    without a current user both getters are false. *)
Theorem getters_agree_with_flags (actions : list action) :
  let s := store (run_all actions initial_world) in
  match currentUser s with
  | Some cu =>
      cu !! "isDefaultUser" = Some (VBool (Getters.isDefaultUser s))
      ∧ cu !! "isOwner" = Some (VBool (Getters.isInstanceOwner s))
      ∧ to_string (get cu "id") = to_string (currentUserId s)
  | None => Getters.isDefaultUser s = false ∧ Getters.isInstanceOwner s = false
  end.
Proof.
  intros s. assert (Hs : store_ok s) by (apply run_all_keeps_store_ok, map_Forall_empty).
  unfold Getters.isDefaultUser, Getters.isInstanceOwner.
  destruct (currentUser s) as [cu|] eqn:Hcu; [|done].
  destruct (store_ok_currentUser s cu Hs Hcu) as (Hid & Hd & _ & Ho). done.
Qed.

(** After a successful logout there is no current user, every getter
    gives its default, and the records of the users stay in the mapping. *)
Theorem logout_getters (w : World) :
  let s := store (logout (Resolved tt) w).2 in
  currentUser s = None
  ∧ Getters.isDefaultUser s = false
  ∧ Getters.isInstanceOwner s = false
  ∧ Getters.userActivated s = false
  ∧ Getters.mfaEnabled s = VBool false
  ∧ Getters.globalRoleName s = VStr "default"
  ∧ users s = users (store w).
Proof. repeat split. Qed.

(** ** Failed requests *)

(** An action whose request is rejected leaves the store and the
    collaborators as they were.  It throws the rejection, except for
    [initialize], which throws nothing, and [fetchUserCloudAccount], which
    throws a new [Error] with the reason as its message. *)
Theorem rejected_request (a : action) (reason : string) (w : World) :
  request_rejection a = Some reason →
  exec a w = (thrown_on_rejection a reason, w).
Proof.
  destruct a; simpl; try discriminate;
    match goal with r : response _ |- _ => destruct r end; simpl; try discriminate;
    intros [= ->]; try reflexivity.
  unfold run, initialize, bind, read. simpl. by destruct (initialized (store w)).
Qed.

Lemma rejected_request_witness :
  exec (DeleteUser "1" (Rejected "offline")) logged_in = (Some (ApiError "offline"), logged_in).
Proof. apply (rejected_request (DeleteUser "1" (Rejected "offline")) "offline"). reflexivity. Defined.

(** A rejected cookie login makes [initialize] do nothing at all, in any
    world; and once an attempt has come back, with a user or without, a
    later [initialize] does nothing, whatever its request would give. *)
Theorem initialize_once (first : option obj) (later : response (option obj))
    (reason : string) (w : World) :
  initialize (Rejected reason) w = (Return tt, w)
  ∧ initialize later (initialize (Resolved first) w).2
    = (Return tt, (initialize (Resolved first) w).2).
Proof.
  split.
  - unfold initialize, bind, read. simpl. by destruct (initialized (store w)).
  - assert (Hinit : initialized (store (initialize (Resolved first) w).2) = true).
    { unfold initialize, bind, read. simpl.
      destruct (initialized (store w)) eqn:Hw; [done|]. by destruct first. }
    unfold initialize at 1. unfold bind, read. simpl. by rewrite Hinit.
Qed.

(** ** Actions on the current user *)




Lemma currentUser_lookup (s : IUsersState) (cu : obj) :
  currentUser s = Some cu →
  truthy (currentUserId s) = true ∧ users s !! to_string (currentUserId s) = Some cu.
Proof. unfold currentUser. by destruct (truthy (currentUserId s)). Qed.

Lemma currentUser_assign_in_place (s : IUsersState) (cu : obj) (f : string) (v : val) :
  currentUser s = Some cu →
  currentUser (assign_in_place (to_string (currentUserId s)) f v s) = Some (<[f:=v]> cu).
Proof.
  intros Hcu. destruct (currentUser_lookup s cu Hcu) as [Ht Hl].
  unfold currentUser, assign_in_place, set_users. simpl.
  by rewrite Ht, lookup_alter_eq, Hl.
Qed.

(** With a current user, [enableMfa] and [disabledMfa] write the field
    [mfaEnabled] of the current user's record and nothing else: the getter
    [mfaEnabled] then gives [true], respectively [false], and every other
    record is as before. *)
Theorem mfa_toggle (w : World) (cu : obj) :
  currentUser (store w) = Some cu →
  let on := store (enableMfa (Resolved tt) w).2 in
  let off := store (disabledMfa (Resolved tt) w).2 in
  currentUser on = Some (<["mfaEnabled" := VBool true]> cu)
  ∧ Getters.mfaEnabled on = VBool true
  ∧ currentUser off = Some (<["mfaEnabled" := VBool false]> cu)
  ∧ Getters.mfaEnabled off = VBool false
  ∧ ∀ key, key ≠ to_string (currentUserId (store w)) →
      users on !! key = users (store w) !! key
      ∧ users off !! key = users (store w) !! key.
Proof.
  intros Hcu on off.
  assert (Hon : on = assign_in_place (to_string (currentUserId (store w)))
                       "mfaEnabled" (VBool true) (store w)).
  { subst on. unfold enableMfa, bind, read, modify. simpl. by rewrite Hcu. }
  assert (Hoff : off = assign_in_place (to_string (currentUserId (store w)))
                         "mfaEnabled" (VBool false) (store w)).
  { subst off. unfold disabledMfa, bind, read, modify. simpl. by rewrite Hcu. }
  rewrite Hon, Hoff. unfold Getters.mfaEnabled, Getters.currentUser_field.
  rewrite !(currentUser_assign_in_place _ cu) by done.
  unfold get. rewrite !lookup_insert_eq. simpl.
  repeat split; try done; unfold assign_in_place, set_users; simpl;
    by rewrite lookup_alter_ne.
Qed.

Lemma mfa_toggle_witness :
  Getters.mfaEnabled (store (enableMfa (Resolved tt) logged_in).2) = VBool true.
Proof.
  destruct (mfa_toggle logged_in (merged initial_state named_pending)
              logged_in_currentUser) as (_ & Hon & _).
  exact Hon.
Defined.

(** ** Updating settings *)

Lemma merge_user_self_raw (r : obj) (f : string) :
  f ∉ derived_fields → merge_user r r !! f = r !! f.
Proof.
  intros Hf. rewrite merge_user_lookup_raw by done.
  rewrite lookup_union. by destruct (r !! f).
Qed.

(** Assigning the settings in place on the record under [key] and merging
    that record again leaves under [key] the merge of the record with
    itself, when the record carries the id it is stored under. *)
Lemma remerge_settings (s : IUsersState) (key : string) (r : obj) (v : val) :
  users s !! key = Some r → to_string (get r "id") = key →
  users (addUsers [<["settings" := v]> r] (assign_in_place key "settings" v s)) !! key
  = Some (merge_user (<["settings" := v]> r) (<["settings" := v]> r)).
Proof.
  intros Hr Hid. set (r1 := <["settings" := v]> r).
  assert (Hid1 : to_string (get r1 "id") = key).
  { subst r1. by rewrite get_insert_ne. }
  assert (Hprev : prev_of (assign_in_place key "settings" v s) r1 = r1).
  { unfold prev_of, assign_in_place, set_users. simpl.
    by rewrite Hid1, lookup_alter_eq, Hr. }
  destruct raw_names as (Hraw & _).
  assert (Hkey : to_string (get (merged (assign_in_place key "settings" v s) r1) "id")
                 = key).
  { unfold merged. rewrite Hprev, merge_user_get_raw by done.
    unfold get, spread2. rewrite lookup_union.
    fold (get r1 "id") in *. unfold get in Hid1.
    by destruct (r1 !! "id"). }
  pose proof (addUsers_stored (assign_in_place key "settings" v s) r1) as Hstored.
  rewrite Hkey in Hstored. rewrite Hstored. unfold merged. by rewrite Hprev.
Qed.

Lemma settings_raw : "settings" ∉ derived_fields.
Proof. apply derived_fields_spec. repeat split; discriminate. Qed.

(** What the re-merged record holds: the new settings, every other raw
    field as before, and a full name made from its own names. *)
Lemma remerged_record (r : obj) (v : val) :
  let r' := merge_user (<["settings" := v]> r) (<["settings" := v]> r) in
  r' !! "settings" = Some v
  ∧ (∀ f, f ∉ derived_fields → f ≠ "settings" → r' !! f = r !! f)
  ∧ r' !! "fullName" =
      Some (if truthy (get r "firstName")
            then VStr (to_string (get r "firstName") ++ " "
                       ++ to_string (or_else (get r "lastName") (VStr "")))
            else VUndef).
Proof.
  intros r'. subst r'. destruct raw_names as (_ & Hfn & Hln & _).
  split; [|split].
  - rewrite merge_user_self_raw by apply settings_raw. apply lookup_insert_eq.
  - intros f Hf Hne. rewrite merge_user_self_raw by done. by rewrite lookup_insert_ne.
  - rewrite merge_user_fullName. unfold fullName_of.
    assert (Hget : ∀ f, f ∉ derived_fields → f ≠ "settings" →
              get (spread2 (<["settings" := v]> r) (<["settings" := v]> r)) f = get r f).
    { intros f Hf Hne. unfold get, spread2. rewrite lookup_union.
      rewrite lookup_insert_ne by done. by destruct (r !! f). }
    rewrite !Hget by (done || discriminate).
    by rewrite get_insert_ne by discriminate.
Qed.

(** [updateOtherUserSettings] on an id that keys no record and names no
    member of [Object.prototype] throws a [TypeError] and writes nothing.
    On a record stored under its own id it replaces the settings and keeps
    every other raw field. *)
Theorem updateOtherUserSettings_spec (userId : string) (settings : val) (w : World) :
  (plain_key userId = true → users (store w) !! userId = None →
   updateOtherUserSettings userId (Resolved settings) w = (Throw TypeError, w))
  ∧ ∀ r, users (store w) !! userId = Some r → to_string (get r "id") = userId →
      ∃ w' r', updateOtherUserSettings userId (Resolved settings) w = (Return tt, w')
        ∧ users (store w') !! userId = Some r'
        ∧ r' !! "settings" = Some settings
        ∧ ∀ f, f ∉ derived_fields → f ≠ "settings" → r' !! f = r !! f.
Proof.
  split.
  - intros _ Hnone. unfold updateOtherUserSettings, bind, read. simpl. by rewrite Hnone.
  - intros r Hr Hid. eexists _, _.
    unfold updateOtherUserSettings, bind, read, modify. simpl. rewrite Hr. simpl.
    rewrite lookup_alter_eq, Hr. simpl. split; [reflexivity|].
    split; [by apply remerge_settings|].
    destruct (remerged_record r settings) as (Hs & Hraw & _). by split.
Qed.

Lemma updateOtherUserSettings_spec_witness :
  updateOtherUserSettings "404" (Resolved VNull) logged_in = (Throw TypeError, logged_in).
Proof.
  destruct (updateOtherUserSettings_spec "404" VNull logged_in) as [Habsent _].
  apply Habsent; vm_compute; reflexivity.
Defined.

(** With a current user stored under its own id, [updateUserSettings]
    replaces that record's settings and keeps its other raw fields; the
    full name is made again from the stored names, and the getter
    [userActivated] then reads the new settings. *)
Theorem updateUserSettings_spec (settings : val) (w : World) (cu : obj) :
  currentUser (store w) = Some cu →
  to_string (get cu "id") = to_string (currentUserId (store w)) →
  ∃ w' r', updateUserSettings (Resolved settings) w = (Return tt, w')
    ∧ currentUser (store w') = Some r'
    ∧ r' !! "settings" = Some settings
    ∧ (∀ f, f ∉ derived_fields → f ≠ "settings" → r' !! f = cu !! f)
    ∧ r' !! "fullName" =
        Some (if truthy (get cu "firstName")
              then VStr (to_string (get cu "firstName") ++ " "
                         ++ to_string (or_else (get cu "lastName") (VStr "")))
              else VUndef)
    ∧ Getters.userActivated (store w') = truthy (Getters.userActivated_of settings).
Proof.
  intros Hcu Hid. destruct (currentUser_lookup _ _ Hcu) as [Ht Hl].
  set (key := to_string (currentUserId (store w))) in *.
  set (r' := merge_user (<["settings" := settings]> cu) (<["settings" := settings]> cu)).
  assert (Hrun : updateUserSettings (Resolved settings) w
                 = (Return tt, on_store (addUsers [<["settings" := settings]> cu])
                                 (on_store (assign_in_place key "settings" settings) w))).
  { subst key. unfold updateUserSettings, bind, read, modify. simpl. rewrite Hcu. simpl.
    by rewrite (currentUser_assign_in_place _ cu). }
  assert (Hcur : currentUser (store (on_store (addUsers [<["settings" := settings]> cu])
                   (on_store (assign_in_place key "settings" settings) w))) = Some r').
  { unfold currentUser. simpl. rewrite Ht. fold key. by apply remerge_settings. }
  destruct (remerged_record cu settings) as (Hs & Hraw & Hfull).
  eexists _, r'. split; [exact Hrun|]. split; [exact Hcur|].
  split; [exact Hs|]. split; [exact Hraw|]. split; [exact Hfull|].
  assert (Hs' : r' !! "settings" = Some settings) by exact Hs.
  unfold Getters.userActivated, Getters.currentUser_field. rewrite Hcur.
  unfold get. by rewrite Hs'.
Qed.

Lemma updateUserSettings_spec_witness :
  Getters.userActivated
    (store (updateUserSettings (Resolved (VObj {[ "userActivated" := VBool true ]}))
              logged_in).2) = true.
Proof.
  destruct (updateUserSettings_spec (VObj {[ "userActivated" := VBool true ]}) logged_in
              (merged initial_state named_pending) logged_in_currentUser)
    as (w' & r' & Hrun & _ & _ & _ & _ & Hact).
  - vm_compute. reflexivity.
  - rewrite Hrun. simpl. rewrite Hact. vm_compute. reflexivity.
Defined.


(** ** Invitations and the survey *)

(** A successful invitation gives back the results it received and merges
    the invited user's stub as a pending user, unless the stub itself says
    whether the user is pending. *)
Theorem inviteUsers_pending (i : IInviteResponse) (id : val) (w : World) :
  user i !! "id" = Some id →
  ∃ w' r, inviteUsers (Resolved [i]) w = (Return [i], w')
    ∧ users (store w') !! to_string id = Some r
    ∧ r !! "isPending" = Some (default (VBool true) (user i !! "isPending"))
    ∧ r !! "isPendingUser"
      = Some (VBool (truthy (default (VBool true) (user i !! "isPending")))).
Proof.
  intros Hid. destruct raw_names as (_ & _ & _ & Hp & _).
  assert (Hstub_id : pending_stub i !! "id" = Some id).
  { unfold pending_stub, spread2. by rewrite lookup_union, Hid, union_Some_l. }
  assert (Hstub : ∀ p, spread2 p (pending_stub i) !! "isPending"
                       = Some (default (VBool true) (user i !! "isPending"))).
  { intros p. unfold pending_stub, spread2. rewrite !lookup_union.
    rewrite lookup_singleton_eq. by destruct (user i !! "isPending"), (p !! "isPending"). }
  exists (on_store (addUsers [pending_stub i]) w), (merged (store w) (pending_stub i)).
  split; [reflexivity|]. split; [by apply addUsers_lookup_id|].
  unfold merged. split.
  - rewrite merge_user_lookup_raw by done. apply Hstub.
  - rewrite merge_user_isPendingUser. unfold isPendingUser, get. by rewrite Hstub.
Qed.

Lemma inviteUsers_pending_witness :
  ∃ r, users (store (inviteUsers (Resolved [invited]) initial_world).2) !! "9" = Some r
    ∧ r !! "isPendingUser" = Some (VBool true).
Proof.
  destruct (inviteUsers_pending invited (VStr "9") initial_world)
    as (w' & r & Hrun & Hr & _ & Hpending).
  - vm_compute. reflexivity.
  - exists r. rewrite Hrun. split; [exact Hr | exact Hpending].
Defined.

Lemma showPersonalizationSurvey_run (surveyEnabled : bool) (w : World) (cu : obj) :
  currentUser (store w) = Some cu →
  showPersonalizationSurvey surveyEnabled w
  = (Return tt, if surveyEnabled && negb (truthy (get cu "personalizationAnswers"))
                then called (OpenModal PERSONALIZATION_MODAL_KEY) w else w).
Proof.
  intros Hcu. unfold showPersonalizationSurvey, bind, read. simpl. rewrite Hcu.
  by destruct (surveyEnabled && negb (truthy (get cu "personalizationAnswers"))).
Qed.

(** With a current user stored under its own id, a submitted survey puts
    the answers on that record, and the survey modal is then opened only
    if the survey is enabled and the answers are falsy. *)
Theorem personalization_survey (answers : val) (surveyEnabled : bool) (w : World)
    (cu : obj) :
  currentUser (store w) = Some cu →
  to_string (get cu "id") = to_string (currentUserId (store w)) →
  let w1 := (submitPersonalizationSurvey answers (Resolved tt) w).2 in
  currentUser (store w1) = Some (<["personalizationAnswers" := answers]> cu)
  ∧ showPersonalizationSurvey surveyEnabled w1
    = (Return tt, if surveyEnabled && negb (truthy answers)
                  then called (OpenModal PERSONALIZATION_MODAL_KEY) w1 else w1).
Proof.
  intros Hcu Hid w1. destruct (currentUser_lookup _ _ Hcu) as [Ht Hl].
  assert (Hcur : currentUser (store w1) = Some (<["personalizationAnswers" := answers]> cu)).
  { subst w1. unfold submitPersonalizationSurvey, bind, modify. simpl.
    unfold setPersonalizationAnswers. rewrite Hcu. unfold currentUser. simpl.
    rewrite Ht, Hid. apply lookup_insert_eq. }
  split; [exact Hcur|].
  rewrite (showPersonalizationSurvey_run _ _ _ Hcur).
  unfold get. by rewrite lookup_insert_eq.
Qed.

Lemma personalization_survey_witness :
  showPersonalizationSurvey true
    (submitPersonalizationSurvey (VObj ∅) (Resolved tt) logged_in).2
  = (Return tt, (submitPersonalizationSurvey (VObj ∅) (Resolved tt) logged_in).2).
Proof.
  destruct (personalization_survey (VObj ∅) true logged_in
              (merged initial_state named_pending) logged_in_currentUser) as [_ Hshow].
  - vm_compute. reflexivity.
  - exact Hshow.
Defined.

(** ** Which actions assign which field *)


(** Only the four login actions, [initialize] and [logout] assign
    [currentUserId], and only [logout] and [fetchUserCloudAccount] assign
    [currentUserCloudInfo]: every other action leaves the field as it is,
    whatever its request gives. *)
Theorem session_fields_frame (a : action) (w : World) :
  (assigns_currentUserId a = false →
   currentUserId (store (exec a w).2) = currentUserId (store w))
  ∧ (assigns_currentUserCloudInfo a = false →
     currentUserCloudInfo (store (exec a w).2) = currentUserCloudInfo (store w)).
Proof.
  split; intros Ha.
  - set (c := currentUserId (store w)).
    assert (Hw : (λ s, currentUserId s = c) (store w)) by done.
    revert Hw. generalize c. clear c. intros c. revert w.
    destruct a; try discriminate Ha; clear Ha; unfold exec; intros w;
      rewrite keeps_run; revert w;
      match goal with |- ∀ w, _ → currentUserId (store (?m w).2) = c =>
        change (preserves (λ s, currentUserId s = c) m) end;
      unfold_actions; repeat frame_step.
  - set (c := currentUserCloudInfo (store w)).
    assert (Hw : (λ s, currentUserCloudInfo s = c) (store w)) by done.
    revert Hw. generalize c. clear c. intros c. revert w.
    destruct a; try discriminate Ha; clear Ha; unfold exec; intros w;
      rewrite keeps_run; revert w;
      match goal with |- ∀ w, _ → currentUserCloudInfo (store (?m w).2) = c =>
        change (preserves (λ s, currentUserCloudInfo s = c) m) end;
      unfold_actions; repeat frame_step.
Qed.

Lemma session_fields_frame_witness :
  currentUserId (store (exec (DeleteUser "1" (Resolved tt)) logged_in).2)
  = currentUserId (store logged_in).
Proof.
  destruct (session_fields_frame (DeleteUser "1" (Resolved tt)) logged_in) as [Hid _].
  apply Hid. reflexivity.
Defined.


(** ** Looking a user up *)

(** [getUserById] finds under a response's id the record that the merge of
    that response wrote; once the id is removed it finds nothing there,
    the id naming no member of [Object.prototype]. *)
Theorem getUserById_roundtrip (s : IUsersState) (u : obj) (i : val) :
  u !! "id" = Some i →
  Getters.getUserById (addUsers [u] s) (to_string i) = Some (merged s u)
  ∧ (plain_key (to_string i) = true →
     Getters.getUserById (deleteUserById (to_string i) (addUsers [u] s)) (to_string i)
     = None).
Proof.
  intros Hi. unfold Getters.getUserById. split; [by apply addUsers_lookup_id|].
  intros _. unfold deleteUserById, set_users. simpl. apply lookup_delete_eq.
Qed.

Lemma getUserById_roundtrip_witness :
  Getters.getUserById (addUsers [named_pending] initial_state) "1"
  = Some (merged initial_state named_pending)
  ∧ Getters.getUserById (deleteUserById "1" (addUsers [named_pending] initial_state)) "1"
    = None.
Proof.
  destruct (getUserById_roundtrip initial_state named_pending (VStr "1"))
    as [Hfound Hgone].
  - vm_compute. reflexivity.
  - split; [exact Hfound | apply Hgone; reflexivity].
Defined.


(** ** The full name a merge writes *)

(** When the response carries a first name, a non-empty string, [fullName]
    is that name, a space, and the last name of the written record if that
    is a non-empty string; after the space comes nothing when the record
    has no last name, or an [undefined], [null] or empty one.  When the
    response carries no first name, or an [undefined], [null] or empty
    one, [fullName] is [undefined], whatever the names of the record. *)
Theorem addUsers_fullName_cases (s : IUsersState) (u : obj) :
  let r := merged s u in
  (∀ first, u !! "firstName" = Some (VStr first) → first ≠ "" →
     (∀ last, r !! "lastName" = Some (VStr last) →
        r !! "fullName" = Some (VStr (first ++ " " ++ last)))
     ∧ (r !! "lastName" = None ∨ r !! "lastName" = Some VUndef
        ∨ r !! "lastName" = Some VNull →
        r !! "fullName" = Some (VStr (first ++ " "))))
  ∧ (u !! "firstName" = None ∨ u !! "firstName" = Some VUndef
     ∨ u !! "firstName" = Some VNull ∨ u !! "firstName" = Some (VStr "") →
     r !! "fullName" = Some VUndef).
Proof.
  intros r. destruct raw_names as (_ & Hfn & _).
  assert (Hfull := merged_fullName s u). fold r in Hfull. split.
  - intros first Hu Hne.
    assert (Hfirst : get r "firstName" = VStr first).
    { subst r. unfold merged, get. rewrite merge_user_lookup_raw by done.
      by rewrite lookup_union, Hu, union_Some_l. }
    assert (Htruthy : truthy (get u "firstName") = true).
    { unfold get. rewrite Hu. simpl. apply negb_true_iff. by apply String.eqb_neq. }
    rewrite Hfull, Htruthy, Hfirst. simpl. split.
    + intros last Hlast. unfold get, or_else. rewrite Hlast. simpl.
      destruct (String.eqb last "") eqn:Hempty; simpl; [|done].
      by apply String.eqb_eq in Hempty as ->.
    + intros [Hlast|[Hlast|Hlast]]; unfold get, or_else; by rewrite Hlast.
  - intros [Hu|[Hu|[Hu|Hu]]]; rewrite Hfull; unfold get; by rewrite Hu.
Qed.

Lemma addUsers_fullName_cases_witness :
  merged stored_named {[ "id" := VStr "1"; "firstName" := VStr "C" ]} !! "fullName"
  = Some (VStr "C B")
  ∧ merged initial_state pending_owner !! "fullName" = Some (VStr "A ")
  ∧ merged stored_named activation !! "fullName" = Some VUndef.
Proof.
  destruct (addUsers_fullName_cases stored_named
              {[ "id" := VStr "1"; "firstName" := VStr "C" ]}) as [Hnamed _].
  destruct (Hnamed "C") as [Hlast _]; [vm_compute; reflexivity | discriminate |].
  destruct (addUsers_fullName_cases initial_state pending_owner) as [Hnamed' _].
  destruct (Hnamed' "A") as [_ Hnolast]; [vm_compute; reflexivity | discriminate |].
  destruct (addUsers_fullName_cases stored_named activation) as [_ Habsent].
  split; [|split].
  - apply Hlast. vm_compute; reflexivity.
  - apply Hnolast. left. vm_compute; reflexivity.
  - apply Habsent. left. vm_compute; reflexivity.
Defined.
